(** * celestial-calendar: calendar arithmetic, orbital positions and the
      camera focus controller of [app/components/SolarSystem.tsx] and
      [app/page.tsx], embedded in Rocq.

    Conventions of the embedding
    - a JavaScript [number] that holds an integer (a year, a day count, a
      [Date] time value in milliseconds) is a [Z]; [%] is [Z.rem] (the sign
      follows the dividend) and [Math.floor (a / b)] on integers is [Z.div];
    - a [number] that holds a coordinate or an angle is a real number in the
      orbital model and a rational in the camera model: rounding of the
      IEEE doubles is not modelled;
    - a value that may be a string, [undefined] or [NaN] is a [jsval];
    - a plain object used as a table is a [gmap] over its own keys. *)

From Stdlib Require Import ZArith QArith Qminmax Reals Lra Lia Psatz.
From stdpp Require Import gmap strings list.

(** ** JavaScript values met by the calendar code *)

Inductive jsval : Type :=
  | JSUndefined
  | JSString (s : string)
  | JSNaN.

#[global] Instance jsval_eq_dec : EqDecision jsval.
Proof. solve_decision. Defined.

(** [arr[i]] for an array of strings and an integer-valued index: a hole
    outside [0 .. length-1] reads [undefined] (the key of [-0] is ["0"], so the
    sign of a zero index does not matter). *)
Definition js_index (arr : list string) (i : Z) : jsval :=
  if (i <? 0)%Z then JSUndefined
  else match arr !! Z.to_nat i with
       | Some s => JSString s
       | None => JSUndefined
       end.

(** The binary [+] on the values above: concatenation as soon as one operand
    is a string, numeric addition (here always [NaN]) otherwise. *)
Definition js_add (a b : jsval) : jsval :=
  match a, b with
  | JSString s, JSString t => JSString (String.append s t)
  | JSString s, JSUndefined => JSString (String.append s "undefined")
  | JSString s, JSNaN => JSString (String.append s "NaN")
  | JSUndefined, JSString t => JSString (String.append "undefined" t)
  | JSNaN, JSString t => JSString (String.append "NaN" t)
  | _, _ => JSNaN
  end.

(** ** Host [Date] objects

    A [Date] is read through [getTime] (milliseconds since 1970-01-01 UTC)
    and [getFullYear].  A date-only ISO string is parsed as UTC midnight;
    [days_from_civil] counts the days from 1970-01-01 to a proleptic
    Gregorian date. *)

Record Date : Type := mkDate { getFullYear : Z; getTime : Z }.

Definition msPerDay : Z := 1000 * 60 * 60 * 24.

Definition days_from_civil (y m d : Z) : Z :=
  let y' := if (m <=? 2)%Z then (y - 1)%Z else y in
  let era := (y' / 400)%Z in
  let yoe := (y' - era * 400)%Z in
  let mp := if (m >? 2)%Z then (m - 3)%Z else (m + 9)%Z in
  let doy := ((153 * mp + 2) / 5 + d - 1)%Z in
  let doe := (yoe * 365 + yoe / 4 - yoe / 100 + doy)%Z in
  (era * 146097 + doe - 719468)%Z.

(** [new Date('YYYY-MM-DD').getTime()] *)
Definition Date_parse_ymd (y m d : Z) : Z := (days_from_civil y m d * msPerDay)%Z.

(** ** Calendar tables *)

Definition HEAVENLY_STEMS : list string :=
  ["甲"; "乙"; "丙"; "丁"; "戊"; "己"; "庚"; "辛"; "壬"; "癸"].

Definition EARTHLY_BRANCHES : list string :=
  ["子"; "丑"; "寅"; "卯"; "辰"; "巳"; "午"; "未"; "申"; "酉"; "戌"; "亥"].

Definition SOLAR_TERMS : list string :=
  ["立春"; "雨水"; "惊蛰"; "春分"; "清明"; "谷雨";
   "立夏"; "小满"; "芒种"; "夏至"; "小暑"; "大暑";
   "立秋"; "处暑"; "白露"; "秋分"; "寒露"; "霜降";
   "立冬"; "小雪"; "大雪"; "冬至"; "小寒"; "大寒"].

(** ** Calendar Math *)

Definition getGanZhiYear (year : Z) : jsval :=
  let offset := ((year - 4) `rem` 60)%Z in
  let stemIndex := (offset `rem` 10)%Z in
  let branchIndex := (offset `rem` 12)%Z in
  js_add (js_index HEAVENLY_STEMS stemIndex) (js_index EARTHLY_BRANCHES branchIndex).

(** The year label as the specification words it: the same table reads with
    the non-negative modulo. *)
Definition yearLabel_spec (year : Z) : jsval :=
  let offset := ((year - 4) `mod` 60)%Z in
  let stemIndex := (offset `mod` 10)%Z in
  let branchIndex := (offset `mod` 12)%Z in
  js_add (js_index HEAVENLY_STEMS stemIndex) (js_index EARTHLY_BRANCHES branchIndex).

(** The label at position [o] of the sexagenary cycle, as every label
    function above builds it from an offset. *)
Definition label_of_offset (o : Z) : jsval :=
  js_add (js_index HEAVENLY_STEMS (o `rem` 10)%Z)
         (js_index EARTHLY_BRANCHES (o `rem` 12)%Z).

(** A well-formed label is one stem followed by one branch. *)
Definition well_formed_label (v : jsval) : Prop :=
  ∃ s b, s ∈ HEAVENLY_STEMS ∧ b ∈ EARTHLY_BRANCHES ∧ v = JSString (String.append s b).

(** Every stem followed by every branch. *)
Definition stem_branch_strings : list jsval :=
  HEAVENLY_STEMS ≫= λ s, (λ b, JSString (String.append s b)) <$> EARTHLY_BRANCHES.

Definition getGanZhiMonth (year month : Z) : jsval :=
  let yearStemIndex := ((year - 4) `rem` 10)%Z in
  let monthStemIndex := ((yearStemIndex `rem` 5) * 2 + (month - 1))%Z in
  let stem := js_index HEAVENLY_STEMS (monthStemIndex `rem` 10)%Z in
  let branch := js_index EARTHLY_BRANCHES ((month - 1) `rem` 12)%Z in
  js_add stem branch.

Definition getGanZhiDay (date : Date) : jsval :=
  let baseDate := Date_parse_ymd 1949 10 1 in
  let daysDiff := ((getTime date - baseDate) / msPerDay)%Z in
  let offset := ((daysDiff + 10) `rem` 60)%Z in
  let stemIndex := (offset `rem` 10)%Z in
  let branchIndex := (offset `rem` 12)%Z in
  js_add (js_index HEAVENLY_STEMS stemIndex) (js_index EARTHLY_BRANCHES branchIndex).

(** The intermediate values of [getGanZhiDay], in the order the function
    computes them: [daysDiff], [offset], [stemIndex], [branchIndex]. *)
Definition getGanZhiDay_trace (date : Date) : Z * Z * Z * Z :=
  let baseDate := Date_parse_ymd 1949 10 1 in
  let daysDiff := ((getTime date - baseDate) / msPerDay)%Z in
  let offset := ((daysDiff + 10) `rem` 60)%Z in
  (daysDiff, offset, (offset `rem` 10)%Z, (offset `rem` 12)%Z).

Section LocalCalendar.
(** [Date_y_0_0 y] is the time value of [new Date(y, 0, 0)], local midnight
    of the day before January 1 of year [y]; the host supplies it. *)
Variable Date_y_0_0 : Z → Z.

Definition dayOfYear (time : Date) : Z :=
  ((getTime time - Date_y_0_0 (getFullYear time)) / msPerDay)%Z.

Definition getCurrentSolarTermIndex (time : Date) : Z :=
  ((dayOfYear time * 24 / 365) `rem` 24)%Z.

Definition getCurrentSolarTerm (date : Date) : jsval :=
  let index := ((dayOfYear date * 24 / 365) `rem` 24)%Z in
  js_index SOLAR_TERMS index.

End LocalCalendar.

(** [new Date(year, month, day).getTime()] on a host whose local time is UTC,
    [month] counted from 0 and [day] possibly 0 (the day before the first): the
    constructor reads a year of 0 .. 99 as 1900 + year. *)
Definition Date_local_UTC (year month day : Z) : Z :=
  let full := if ((0 <=? year) && (year <=? 99))%Z then (1900 + year)%Z else year in
  (days_from_civil full (month + 1) day * msPerDay)%Z.

(** [new Date(y, 0, 0).getTime()] on that host. *)
Definition Date_y_0_0_UTC (y : Z) : Z := Date_local_UTC y 0 0.

(** The reference epoch of the orbital model, [new Date('2000-01-01')]. *)
Definition J2000 : Date := mkDate 2000 (Date_parse_ymd 2000 1 1).

Definition isLeapYear (y : Z) : bool :=
  ((y `mod` 4 =? 0) && negb (y `mod` 100 =? 0) || (y `mod` 400 =? 0))%Z.

Definition daysInYear (y : Z) : Z := if isLeapYear y then 366%Z else 365%Z.

(** The date of the calendar year [y] that is [s] milliseconds into its day
    number [d] (January 1 is day 1, December 31 is day [daysInYear y]), as
    the date input and the play timer produce it on a UTC host: its
    [getFullYear] is [y] and its time value counts from 1970-01-01. *)
Definition dateInYear (y d s : Z) : Date :=
  mkDate y ((days_from_civil y 1 1 + (d - 1)) * msPerDay + s)%Z.

(** ** Epoch / cycle index *)

Record JiaziEntry : Type := mkJiazi { name : jsval; year : Z; startYear : Z }.

(** One turn of the loop of [generate60JiaZi]: the entry pushed for index [i]
    when [new Date().getFullYear()] is [currentYear]. *)
Definition jiazi_entry (currentYear i : Z) : JiaziEntry :=
  let baseYear := 4%Z in
  let stemIndex := (i `rem` 10)%Z in
  let branchIndex := (i `rem` 12)%Z in
  let name := js_add (js_index HEAVENLY_STEMS stemIndex)
                     (js_index EARTHLY_BRANCHES branchIndex) in
  let cycles := ((currentYear - baseYear) / 60)%Z in
  let recentYear := (baseYear + i + cycles * 60)%Z in
  if (recentYear >? currentYear)%Z
  then mkJiazi name i (recentYear - 60)%Z
  else mkJiazi name i recentYear.

Definition generate60JiaZi (currentYear : Z) : list JiaziEntry :=
  jiazi_entry currentYear <$> seqZ 0 60.

(** The element table of [Home]: every key of the object literal with its
    planet (the literal repeats no key). *)
Definition jiaziToPlanet : gmap string string :=
  list_to_map
    [ ("甲子", "mercury"); ("乙丑", "mercury");
      ("丙子", "mercury"); ("丁丑", "mercury");
      ("戊子", "mercury"); ("己丑", "mercury");
      ("庚子", "mercury"); ("辛丑", "mercury");
      ("壬子", "mercury"); ("癸丑", "mercury");
      ("壬寅", "jupiter"); ("癸卯", "jupiter");
      ("壬辰", "jupiter"); ("癸巳", "jupiter");
      ("壬午", "jupiter"); ("癸未", "jupiter");
      ("壬申", "jupiter"); ("癸酉", "jupiter");
      ("壬戌", "jupiter"); ("癸亥", "jupiter");
      ("丙寅", "mars"); ("丁卯", "mars");
      ("丙辰", "mars"); ("丁巳", "mars");
      ("丙午", "mars"); ("丁未", "mars");
      ("丙申", "mars"); ("丁酉", "mars");
      ("丙戌", "mars"); ("丁亥", "mars");
      ("戊寅", "saturn"); ("己卯", "saturn");
      ("戊辰", "saturn"); ("己巳", "saturn");
      ("戊午", "saturn"); ("己未", "saturn");
      ("戊申", "saturn"); ("己酉", "saturn");
      ("戊戌", "saturn"); ("己亥", "saturn");
      ("庚寅", "venus"); ("辛卯", "venus");
      ("庚辰", "venus"); ("辛巳", "venus");
      ("庚午", "venus"); ("辛未", "venus");
      ("庚申", "venus"); ("辛酉", "venus");
      ("庚戌", "venus"); ("辛亥", "venus");
      ("甲寅", "mercury"); ("乙卯", "mercury");
      ("甲辰", "mercury"); ("乙巳", "mercury");
      ("甲午", "mercury"); ("乙未", "mercury");
      ("甲申", "mercury"); ("乙酉", "mercury");
      ("甲戌", "mercury"); ("乙亥", "mercury");
      ("default", "earth") ].

(** [a || b] on values that are a string or [undefined]: the empty string and
    [undefined] are falsy. *)
Definition js_truthy (a : option string) : bool :=
  match a with
  | Some s => negb (String.eqb s "")
  | None => false
  end.

Definition js_or (a b : option string) : option string :=
  if js_truthy a then a else b.

(** [a || b] when [b] is a non-empty string literal: the result is a string. *)
Definition js_or_string (a : option string) (b : string) : string :=
  match a with
  | Some s => if js_truthy a then s else b
  | None => b
  end.

(** Which operand of [jiaziToPlanet[jiaziName] || jiaziToPlanet['default']]
    supplied the planet. *)
Inductive lookup_branch : Type := ExplicitEntry | DefaultEntry.

Definition planet_branch (jiaziName : string) : lookup_branch :=
  if js_truthy (jiaziToPlanet !! jiaziName) then ExplicitEntry else DefaultEntry.

(** The planets the element table may name for a cycle name, and the test
    that a value is a string with an own, truthy entry among them. *)
Definition five_planets : list string :=
  ["mercury"; "jupiter"; "mars"; "saturn"; "venus"].

Definition has_explicit_planet (v : jsval) : bool :=
  match v with
  | JSString nm =>
      match jiaziToPlanet !! nm with
      | Some p => bool_decide (p ∈ five_planets) && js_truthy (Some p)
      | None => false
      end
  | _ => false
  end.

Record PageState : Type := mkPage {
  currentTime : Date;
  isPlaying : bool;
  showJiaziModal : bool;
  targetPlanet : option string
}.

Section Page.
(** [Date_y_0_1 y] is the host's [new Date(y, 0, 1)]. *)
Variable Date_y_0_1 : Z → Date.

Definition handleJiaziSelect (startYear : Z) (jiaziName : string)
    (st : PageState) : PageState :=
  let planet := js_or (jiaziToPlanet !! jiaziName) (jiaziToPlanet !! "default") in
  mkPage (Date_y_0_1 startYear) false false
         (if js_truthy planet then planet else Some "earth").
End Page.

(** ** Orbital position model *)

Definition orbitalPeriods : gmap string R :=
  list_to_map
    [ ("Mercury", 87.97%R); ("Venus", 224.7%R); ("Earth", 365.256%R);
      ("Mars", 686.98%R); ("Jupiter", 4332.59%R); ("Saturn", 10759.22%R);
      ("Moon", 27.32%R) ].

Definition Position3 : Type := (R * R * R)%type.

Definition norm3 (p : Position3) : R :=
  let '(x, y, z) := p in sqrt (x * x + y * y + z * z)%R.

Section Orbital.
(** The [Body] enumeration of the astronomy library, as the list of its
    members (name, value) in declaration order.  A [body] argument is
    compared to the members' values with [===]; a value of another type
    than string is equal to none of them, like a string the list lacks. *)
Variable Body : list (string * string).

(** [Object.keys(Body).find(key => Body[key] === body)] *)
Definition bodyKey (body : string) : option string :=
  fst <$> List.find (λ kv, String.eqb (snd kv) body) Body.

(** [orbitalPeriods[bodyKey || 'Earth'] || 365.256]: a missing entry and a
    zero are falsy. *)
Definition period (body : string) : R :=
  match orbitalPeriods !! js_or_string (bodyKey body) "Earth" with
  | Some p => if Req_dec_T p 0 then 365.256%R else p
  | None => 365.256%R
  end.

Definition daysSinceEpoch (time : Date) : R :=
  (IZR (getTime time - Date_parse_ymd 2000 1 1) / (1000 * 60 * 60 * 24))%R.

Definition angle (time : Date) (body : string) : R :=
  (daysSinceEpoch time / period body * PI * 2)%R.

(** No operation of the [try] block raises on a [Date] and a number, so the
    [catch] handler, which answers [[distance, 0, 0]], never runs. *)
Definition calculatePosition (time : Date) (body : string) (distance : R)
    : Position3 :=
  let x := (distance * cos (angle time body))%R in
  let z := (distance * sin (angle time body))%R in
  let y := 0%R in
  (x, y, z).
End Orbital.

(** Modelled from the spec: the [Body] enumeration belongs to the astronomy
    library the component imports, which is not among the sources; these are
    the identifiers section 3 lists for it (CelestialBodyId), each member a
    string constant spelled like its name. *)
Definition CelestialBodyId : list (string * string) :=
  [ ("Sun", "Sun"); ("Mercury", "Mercury"); ("Venus", "Venus");
    ("Earth", "Earth"); ("Moon", "Moon"); ("Mars", "Mars");
    ("Jupiter", "Jupiter"); ("Saturn", "Saturn") ].

(** The bodies the scene passes to [calculatePosition]: the six entries of
    [PLANETS] and the Moon, each with its orbit radius. *)
Definition tracked_bodies : list (string * R) :=
  [ ("Mercury", 12%R); ("Venus", 18%R); ("Earth", 24%R); ("Mars", 30%R);
    ("Jupiter", 45%R); ("Saturn", 60%R); ("Moon", 2%R) ].

(** ** Camera focus controller *)

Record Vector3 : Type := mkVec { vx : Q; vy : Q; vz : Q }.

Definition vec_add (a b : Vector3) : Vector3 :=
  mkVec (vx a + vx b) (vy a + vy b) (vz a + vz b).

(** [this.x = v1.x + (v2.x - v1.x) * alpha], and the same for [y] and [z]. *)
Definition lerpVectors (v1 v2 : Vector3) (alpha : Q) : Vector3 :=
  mkVec (vx v1 + (vx v2 - vx v1) * alpha)
        (vy v1 + (vy v2 - vy v1) * alpha)
        (vz v1 + (vz v2 - vz v1) * alpha).

Definition easeInOutCubic (t : Q) : Q :=
  if Qlt_le_dec t (1 # 2) then (4 * t * t * t)%Q
  else (1 - Qpower (- (2) * t + 2) 3 / 2)%Q.

(** The fields of the [OrbitControls] instance the controller touches. *)
Record Controls : Type := mkControls { enabled : bool; target : Vector3 }.

(** The variables the closure [animate] captures. *)
Record Animation : Type := mkAnimation {
  startPosition : Vector3;
  startTarget : Vector3;
  endPosition : Vector3;
  endTarget : Vector3;
  startTime : Q
}.

(** The camera, the three refs of [CameraController] and the host's queue of
    requested animation frames (handle, callback). *)
Record Scene : Type := mkScene {
  camera_position : Vector3;
  controlsRef : option Controls;
  animationRef : option nat;
  isAnimating : bool;
  frameQueue : list (nat * Animation);
  nextHandle : nat
}.

Definition requestAnimationFrame (cb : Animation) (w : Scene) : nat * Scene :=
  (nextHandle w,
   mkScene (camera_position w) (controlsRef w) (animationRef w) (isAnimating w)
           (frameQueue w ++ [(nextHandle w, cb)]) (S (nextHandle w))).

Definition cancelAnimationFrame (h : nat) (w : Scene) : Scene :=
  mkScene (camera_position w) (controlsRef w) (animationRef w) (isAnimating w)
          (List.filter (λ e, negb (Nat.eqb (fst e) h)) (frameQueue w)) (nextHandle w).

Definition set_enabled (b : bool) (c : Controls) : Controls := mkControls b (target c).

Definition duration : Q := 1200%Q.

Definition progress_at (a : Animation) (now : Q) : Q :=
  Qmin ((now - startTime a) / duration)%Q 1%Q.

(** One call of [animate] at [performance.now() = now].  In the second
    branch [controls.update()] only re-reads the camera; it changes none of
    the fields kept here. *)
Definition animate (a : Animation) (now : Q) (w : Scene) : Scene :=
  let progress := progress_at a now in
  if Qle_bool progress 1 then
    let eased := easeInOutCubic progress in
    let position := lerpVectors (startPosition a) (endPosition a) eased in
    let controls :=
      (λ c, mkControls (enabled c) (lerpVectors (startTarget a) (endTarget a) eased))
        <$> controlsRef w in
    let '(h, w') :=
      requestAnimationFrame a
        (mkScene position controls (animationRef w) (isAnimating w)
                 (frameQueue w) (nextHandle w)) in
    mkScene (camera_position w') (controlsRef w') (Some h) (isAnimating w')
            (frameQueue w') (nextHandle w')
  else
    mkScene (camera_position w) (set_enabled true <$> controlsRef w) None false
            (frameQueue w) (nextHandle w).

(** The body of the effect, run when [targetPosition] or the camera changes. *)
Definition focus_effect (targetPosition : option Vector3) (now : Q) (w : Scene)
    : Scene :=
  match targetPosition, controlsRef w, isAnimating w with
  | Some tgt, Some controls, false =>
      let distance : Q := 25%Q in
      let a := mkAnimation (camera_position w) (target controls)
                 (vec_add tgt (mkVec distance (distance * (6 # 10))%Q distance))
                 tgt now in
      let w1 := mkScene (camera_position w) (Some (set_enabled false controls))
                        (animationRef w) true (frameQueue w) (nextHandle w) in
      let w2 := match animationRef w1 with
                | Some h => cancelAnimationFrame h w1
                | None => w1
                end in
      let '(h, w3) := requestAnimationFrame a w2 in
      mkScene (camera_position w3) (controlsRef w3) (Some h) (isAnimating w3)
              (frameQueue w3) (nextHandle w3)
  | _, _, _ => w
  end.

(** The cleanup the effect returns. *)
Definition focus_cleanup (w : Scene) : Scene :=
  let w1 := match animationRef w with
            | Some h =>
                let w' := cancelAnimationFrame h w in
                mkScene (camera_position w') (controlsRef w') None (isAnimating w')
                        (frameQueue w') (nextHandle w')
            | None => w
            end in
  mkScene (camera_position w1) (set_enabled true <$> controlsRef w1)
          (animationRef w1) false (frameQueue w1) (nextHandle w1).

(** One rendered frame: the host empties its queue and runs the callbacks
    that were pending, in request order. *)
Definition frame (now : Q) (w : Scene) : Scene :=
  fold_left (λ acc e, animate (snd e) now acc) (frameQueue w)
    (mkScene (camera_position w) (controlsRef w) (animationRef w) (isAnimating w)
             [] (nextHandle w)).

(** The frames at the successive instants [nows]. *)
Definition frames (nows : list Q) (w : Scene) : Scene :=
  fold_left (λ acc now, frame now acc) nows w.

Inductive ControllerState : Type := Idle | Transitioning.

(** Idle: manual input enabled, no animation flagged, no frame handle held. *)
Definition controller_state (w : Scene) : ControllerState :=
  match enabled <$> controlsRef w, isAnimating w, animationRef w with
  | Some true, false, None => Idle
  | _, _, _ => Transitioning
  end.

(** A transition in flight: input suspended, the flag set, a frame pending. *)
Definition in_flight (w : Scene) : Prop :=
  isAnimating w = true
  ∧ enabled <$> controlsRef w = Some false
  ∧ animationRef w ≠ None
  ∧ frameQueue w ≠ [].

(** A mounted controller at rest, the camera at the canvas's initial
    position [[50, 30, 50]] and the controls aimed at the origin. *)
Definition mounted : Scene :=
  mkScene (mkVec 50 30 50) (Some (mkControls true (mkVec 0 0 0))) None false [] 0.

(** ** The cycle picker of the page *)

(** In the modal each entry of the table is shown with the year
    [jiazi.startYear + Math.floor((currentYear - jiazi.startYear) / 60) * 60],
    [currentYear] being the year of the page's current time, and is
    highlighted when that year is [currentYear]. *)
Definition jiaziYear (jiazi : JiaziEntry) (currentYear : Z) : Z :=
  (startYear jiazi + (currentYear - startYear jiazi) / 60 * 60)%Z.

Definition isSelected (jiazi : JiaziEntry) (currentYear : Z) : bool :=
  (jiaziYear jiazi currentYear =? currentYear)%Z.

(** ** Runs of the camera controller *)

(** Two vectors with equal coordinates (as rationals). *)
Definition vec_eqv (a b : Vector3) : Prop :=
  vx a == vx b ∧ vy a == vy b ∧ vz a == vz b.

(** [x] lies between [a] and [b], whichever is the larger. *)
Definition Qbetween (x a b : Q) : Prop := (Qmin a b <= x)%Q ∧ (x <= Qmax a b)%Q.

Definition vec_between (p a b : Vector3) : Prop :=
  Qbetween (vx p) (vx a) (vx b) ∧ Qbetween (vy p) (vy a) (vy b)
  ∧ Qbetween (vz p) (vz a) (vz b).

(** What the component meets after it is mounted: the prop [targetPosition]
    changes, upon which the previous effect's cleanup runs and then the
    effect, at time [now]; or the host renders a frame at time [now]. *)
Inductive ControllerEvent : Type :=
  | TargetChanged (targetPosition : option Vector3) (now : Q)
  | FrameRendered (now : Q).

Definition controller_step (w : Scene) (ev : ControllerEvent) : Scene :=
  match ev with
  | TargetChanged targetPosition now => focus_effect targetPosition now (focus_cleanup w)
  | FrameRendered now => frame now w
  end.

Definition controller_run (evs : list ControllerEvent) (w : Scene) : Scene :=
  fold_left controller_step evs w.

(** At rest: controls mounted and enabled, nothing flagged, held or queued. *)
Definition settled (w : Scene) : Prop :=
  (∃ c, controlsRef w = Some c ∧ enabled c = true)
  ∧ isAnimating w = false ∧ animationRef w = None ∧ frameQueue w = [].

(** One animation loop alive: its callback is the only one queued and
    [animationRef] holds its handle. *)
Definition one_loop (w : Scene) : Prop :=
  in_flight w ∧ ∃ h a, animationRef w = Some h ∧ frameQueue w = [(h, a)].

(** ** The scene: planet table, orbit lines and focus targets *)

Module PlanetData.
Record t : Type := mk {
  name : string;
  size : R;
  color : string;
  distance : R;
  body : string;          (* the name of the member of [Body] *)
  hasRings : bool;        (* an absent optional flag reads as falsy *)
  hasStripes : bool;
  hasCraters : bool;
  hasAtmosphere : bool;
  hasLand : bool;
  type : string
}.
End PlanetData.

Definition PLANETS_mercury : PlanetData.t :=
  PlanetData.mk "水星" 1.2 "#8c7853" 12 "Mercury" false false true false false "rocky".
Definition PLANETS_venus : PlanetData.t :=
  PlanetData.mk "金星" 1.8 "#f5e6a3" 18 "Venus" false false false true false "rocky".
Definition PLANETS_earth : PlanetData.t :=
  PlanetData.mk "地球" 2 "#1e4d7c" 24 "Earth" false false false false true "rocky".
Definition PLANETS_mars : PlanetData.t :=
  PlanetData.mk "火星" 1.5 "#c1440e" 30 "Mars" false false true false false "rocky".
Definition PLANETS_jupiter : PlanetData.t :=
  PlanetData.mk "木星" 5 "#d4a574" 45 "Jupiter" false true false false false "gas".
Definition PLANETS_saturn : PlanetData.t :=
  PlanetData.mk "土星" 4 "#e3d595" 60 "Saturn" true false false false false "gas".

Definition PLANETS : gmap string PlanetData.t :=
  list_to_map
    [ ("mercury", PLANETS_mercury); ("venus", PLANETS_venus); ("earth", PLANETS_earth);
      ("mars", PLANETS_mars); ("jupiter", PLANETS_jupiter); ("saturn", PLANETS_saturn) ].

(** The vertices of the line [Orbit] draws: [i] runs from 0 to 128. *)
Definition Orbit_points (radius : R) : list Position3 :=
  (λ i : nat,
     let angle := (INR i / 128 * PI * 2)%R in
     (cos angle * radius, 0, sin angle * radius)%R) <$> seq 0 129.

Definition pos_add (p q : Position3) : Position3 :=
  let '(px, py, pz) := p in
  let '(qx, qy, qz) := q in
  (px + qx, py + qy, pz + qz)%R.

Definition pos_sub (p q : Position3) : Position3 :=
  let '(px, py, pz) := p in
  let '(qx, qy, qz) := q in
  (px - qx, py - qy, pz - qz)%R.

Section Scene.
Variable Body : list (string * string).
(** [Body_member k] is the value of the member of [Body] named [k]. *)
Variable Body_member : string → string.

(** The effect of [SolarSystemScene] on [targetPlanet] and [time]: the next
    value of the state [targetPosition]. *)
Definition targetPlanet_effect (time : Date) (targetPlanet : option string)
    (targetPosition : option Position3) : option Position3 :=
  match targetPlanet with
  | Some key =>
      if js_truthy targetPlanet then
        match PLANETS !! key with
        | Some planet =>
            Some (calculatePosition Body time
                    (Body_member (PlanetData.body planet)) (PlanetData.distance planet))
        | None => targetPosition
        end
      else targetPosition
  | None => targetPosition
  end.

(** The position the Moon's click handler passes on: the Earth's position
    plus the Moon's own, computed at radius 2. *)
Definition moonPos (time : Date) : Position3 :=
  let earthPos :=
    calculatePosition Body time (Body_member "Earth") (PlanetData.distance PLANETS_earth) in
  let moonLocalPos := calculatePosition Body time (Body_member "Moon") 2 in
  pos_add earthPos moonLocalPos.
End Scene.

(** ** The earlier scene of [src/unnamed/part_000]

    Its [calculatePosition] derives one base angle from the fractional day of
    the year and scales it by a speed factor looked up under the member name
    of [Body]. *)

Module Part000.
Definition speedFactors : gmap string R :=
  list_to_map
    [ ("mercury", 4.15%R); ("venus", 1.62%R); ("earth", 1.0%R);
      ("mars", 0.53%R); ("jupiter", 0.084%R); ("saturn", 0.034%R) ].

Section Scene.
Variable Body : list (string * string).
Variable Date_y_0_0 : Z → Z.

(** [speedFactors[bodyKey || 'earth'] || 1.0] *)
Definition speed (body : string) : R :=
  match speedFactors !! js_or_string (bodyKey Body body) "earth" with
  | Some s => if Req_dec_T s 0 then 1.0%R else s
  | None => 1.0%R
  end.

Definition baseAngle (time : Date) : R :=
  let dayOfYear :=
    (IZR (getTime time - Date_y_0_0 (getFullYear time)) / (1000 * 60 * 60 * 24))%R in
  (dayOfYear / 365 * PI * 2)%R.

Definition calculatePosition (time : Date) (body : string) (distance : R) : Position3 :=
  let angle := (baseAngle time * speed body)%R in
  let x := (distance * cos angle)%R in
  let z := (distance * sin angle)%R in
  let y := 0%R in
  (x, y, z).
End Scene.
End Part000.

(** * Properties *)

(** ** Tools for the sixty positions of the cycle *)

Lemma cycle_forall (P : Z → Prop) `{!∀ i, Decision (P i)} :
  bool_decide (Forall P (seqZ 0 60)) = true →
  ∀ i, (0 ≤ i < 60)%Z → P i.
Proof.
  intros Hall i Hi.
  apply bool_decide_eq_true_1 in Hall.
  rewrite Forall_forall in Hall.
  apply Hall, elem_of_seqZ. lia.
Qed.

Lemma rem_nonneg_is_mod (a b : Z) :
  (0 ≤ a)%Z → (0 < b)%Z → (a `rem` b = a `mod` b)%Z.
Proof. intros Ha Hb. apply Z.rem_mod_nonneg; lia. Qed.

Lemma js_index_in_range (arr : list string) (i : Z) :
  (0 ≤ i < Z.of_nat (length arr))%Z →
  ∃ s, arr !! Z.to_nat i = Some s ∧ js_index arr i = JSString s.
Proof.
  intros Hi.
  destruct (lookup_lt_is_Some_2 arr (Z.to_nat i)) as [s Hs]; [lia|].
  exists s. split; [done|].
  unfold js_index. rewrite Hs.
  destruct (Z.ltb_spec i 0); [lia|done].
Qed.

Lemma js_index_negative (arr : list string) (i : Z) :
  (i < 0)%Z → js_index arr i = JSUndefined.
Proof.
  intros Hi. unfold js_index.
  destruct (Z.ltb_spec i 0); [done|lia].
Qed.

Lemma label_of_offset_parts (o : Z) :
  (0 ≤ o)%Z →
  ∃ s b, HEAVENLY_STEMS !! Z.to_nat (o `mod` 10) = Some s
       ∧ EARTHLY_BRANCHES !! Z.to_nat (o `mod` 12) = Some b
       ∧ label_of_offset o = JSString (String.append s b).
Proof.
  intros Ho. unfold label_of_offset.
  rewrite !rem_nonneg_is_mod by lia.
  destruct (js_index_in_range HEAVENLY_STEMS (o `mod` 10)) as (s & Hs & ->).
  { pose proof (Z.mod_pos_bound o 10). simpl. lia. }
  destruct (js_index_in_range EARTHLY_BRANCHES (o `mod` 12)) as (b & Hb & ->).
  { pose proof (Z.mod_pos_bound o 12). simpl. lia. }
  by exists s, b.
Qed.

Lemma label_of_offset_well_formed (o : Z) :
  (0 ≤ o)%Z → well_formed_label (label_of_offset o).
Proof.
  intros Ho.
  destruct (label_of_offset_parts o Ho) as (s & b & Hs & Hb & ->).
  exists s, b. split_and!; [by eapply list_elem_of_lookup_2..|done].
Qed.

Lemma getGanZhiYear_offset (year : Z) :
  (4 ≤ year)%Z → getGanZhiYear year = label_of_offset ((year - 4) `mod` 60).
Proof.
  intros Hy. unfold getGanZhiYear, label_of_offset.
  by rewrite (rem_nonneg_is_mod (year - 4) 60) by lia.
Qed.

Lemma yearLabel_spec_offset (year : Z) :
  yearLabel_spec year = label_of_offset ((year - 4) `mod` 60).
Proof.
  unfold yearLabel_spec, label_of_offset.
  pose proof (Z.mod_pos_bound (year - 4) 60).
  by rewrite !rem_nonneg_is_mod by lia.
Qed.

(** From the epoch year 4 on, the code and the specification's formula agree,
    and the label is well formed. *)
Lemma getGanZhiYear_from_epoch (year : Z) :
  (4 ≤ year)%Z →
  getGanZhiYear year = yearLabel_spec year ∧ well_formed_label (getGanZhiYear year).
Proof.
  intros Hy. rewrite yearLabel_spec_offset, getGanZhiYear_offset by done.
  split; [done|].
  apply label_of_offset_well_formed.
  pose proof (Z.mod_pos_bound (year - 4) 60). lia.
Qed.

Lemma getGanZhiYear_period_from_epoch (year : Z) :
  (4 ≤ year)%Z → getGanZhiYear year = getGanZhiYear (year + 60).
Proof.
  intros Hy. rewrite !getGanZhiYear_offset by lia.
  replace (year + 60 - 4)%Z with (year - 4 + 1 * 60)%Z by lia.
  by rewrite Z.mod_add by lia.
Qed.

Example getGanZhiYear_epoch_anchor : getGanZhiYear 4 = JSString "甲子".
Proof. reflexivity. Qed.

Example getGanZhiYear_2024 : getGanZhiYear 2024 = JSString "甲辰".
Proof. reflexivity. Qed.

Example getGanZhiYear_year_0 : getGanZhiYear 0 = JSNaN.
Proof. reflexivity. Qed.

Example getGanZhiYear_year_minus_6 : getGanZhiYear (-6) = JSString "甲undefined".
Proof. reflexivity. Qed.

Lemma well_formed_label_not_NaN : ¬ well_formed_label JSNaN.
Proof. intros (s & b & _ & _ & H). discriminate H. Qed.

Lemma well_formed_label_elem (v : jsval) :
  well_formed_label v ↔ v ∈ stem_branch_strings.
Proof.
  unfold well_formed_label, stem_branch_strings.
  rewrite list_elem_of_bind. split.
  - intros (s & b & Hs & Hb & ->). exists s. split; [|done].
    apply list_elem_of_fmap. by exists b.
  - intros (s & (b & -> & Hb)%list_elem_of_fmap & Hs). by exists s, b.
Qed.

(** What the code builds from a negative offset is never a label. *)
Lemma label_of_negative_offset (r : Z) :
  (-60 < r < 0)%Z → ¬ well_formed_label (label_of_offset r).
Proof.
  intros Hr.
  assert (Forall (λ r, label_of_offset r ∉ stem_branch_strings) (seqZ (-59) 59)) as Hall.
  { apply (bool_decide_unpack _). by vm_compute. }
  rewrite Forall_forall in Hall.
  rewrite well_formed_label_elem. apply Hall, elem_of_seqZ. lia.
Qed.

(** Before the epoch the code yields a label only in the years congruent to 4
    modulo 60; in every other year its result is not a label, hence not the
    one the specification's formula gives. *)
Lemma getGanZhiYear_before_epoch (year : Z) :
  (year < 4)%Z → ((year - 4) `mod` 60 ≠ 0)%Z →
  ¬ well_formed_label (getGanZhiYear year)
  ∧ getGanZhiYear year ≠ yearLabel_spec year.
Proof.
  intros Hy Hmod.
  assert (¬ well_formed_label (getGanZhiYear year)) as Hbad.
  { change (getGanZhiYear year) with (label_of_offset ((year - 4) `rem` 60)).
    apply label_of_negative_offset.
    Z.to_euclidean_division_equations. lia. }
  split; [done|]. intros Heq. apply Hbad. rewrite Heq, yearLabel_spec_offset.
  apply label_of_offset_well_formed.
  pose proof (Z.mod_pos_bound (year - 4) 60). lia.
Qed.

(** In the sixty years before the epoch the sixty-year step leads from a
    non-label to a label. *)
Lemma getGanZhiYear_period_breaks (year : Z) :
  (-56 < year < 4)%Z → getGanZhiYear year ≠ getGanZhiYear (year + 60).
Proof.
  intros Hy Heq.
  destruct (getGanZhiYear_before_epoch year) as [Hbad _]; [lia| |].
  { Z.to_euclidean_division_equations. lia. }
  apply Hbad. rewrite Heq.
  by apply getGanZhiYear_from_epoch; lia.
Qed.

(** C1 (the code departs from the claim): for the year 3 the truncating [%]
    gives the offset [-1], both table reads are [undefined] and their sum is
    the number [NaN], where the claim's non-negative modulo gives the
    well-formed label of offset 59. *)
Theorem getGanZhiYear_year_3_not_label :
  getGanZhiYear 3 = JSNaN
  ∧ yearLabel_spec 3 = JSString "癸亥"
  ∧ ¬ well_formed_label (getGanZhiYear 3).
Proof.
  split_and!; [reflexivity..|].
  change (getGanZhiYear 3) with JSNaN. apply well_formed_label_not_NaN.
Qed.

(** C3 (the code departs from the claim): the years 3 and 63 are sixty years
    apart and get different results, [NaN] and the label of offset 59. *)
Theorem getGanZhiYear_3_vs_63 :
  getGanZhiYear 3 = JSNaN
  ∧ getGanZhiYear (3 + 60) = JSString "癸亥"
  ∧ getGanZhiYear 3 ≠ getGanZhiYear (3 + 60).
Proof. split_and!; [reflexivity..|discriminate]. Qed.

Example days_from_civil_epoch : days_from_civil 1970 1 1 = 0%Z.
Proof. reflexivity. Qed.

Example Date_parse_anchor : Date_parse_ymd 1949 10 1 = (-639100800000)%Z.
Proof. reflexivity. Qed.

Example Date_parse_orbit_epoch : Date_parse_ymd 2000 1 1 = 946684800000%Z.
Proof. reflexivity. Qed.

(** Every instant of the UTC day 1949-10-01 is day 0 and is labelled like the
    anchor itself. *)
Lemma getGanZhiDay_anchor_day (date : Date) :
  (Date_parse_ymd 1949 10 1 ≤ getTime date < Date_parse_ymd 1949 10 1 + msPerDay)%Z →
  getGanZhiDay date = JSString "甲戌".
Proof.
  intros Hd. unfold getGanZhiDay.
  replace ((getTime date - Date_parse_ymd 1949 10 1) / msPerDay)%Z with 0%Z; [done|].
  symmetry. apply Z.div_small. lia.
Qed.

(** C9: at the anchor instant [new Date('1949-10-01')] the day count is 0, the
    offset 10, the stem index 0 and the branch index 10, and the label is
    the stem 甲 followed by the branch 戌. *)
Theorem getGanZhiDay_anchor :
  let anchor := mkDate 1949 (Date_parse_ymd 1949 10 1) in
  getGanZhiDay_trace anchor = (0, 10, 0, 10)%Z
  ∧ HEAVENLY_STEMS !! 0%nat = Some "甲"
  ∧ EARTHLY_BRANCHES !! 10%nat = Some "戌"
  ∧ getGanZhiDay anchor = JSString "甲戌".
Proof. split_and!; reflexivity. Qed.

(** ** The sixty-entry cycle table *)

Lemma labels_NoDup : NoDup (label_of_offset <$> seqZ 0 60).
Proof. apply (bool_decide_unpack _). by vm_compute. Qed.

Lemma label_of_offset_inj (o o' : Z) :
  (0 ≤ o < 60)%Z → (0 ≤ o' < 60)%Z →
  label_of_offset o = label_of_offset o' → o = o'.
Proof.
  intros Ho Ho' Heq.
  assert (∀ k, (0 ≤ k < 60)%Z →
    (label_of_offset <$> seqZ 0 60) !! Z.to_nat k = Some (label_of_offset k)) as Hlk.
  { intros k Hk. rewrite list_lookup_fmap, lookup_seqZ_lt by lia.
    simpl. f_equal. f_equal. lia. }
  pose proof (Hlk o Ho) as H1. pose proof (Hlk o' Ho') as H2.
  rewrite Heq in H1.
  pose proof (NoDup_lookup _ _ _ _ labels_NoDup H1 H2). lia.
Qed.

Lemma generate60JiaZi_elem (currentYear : Z) (e : JiaziEntry) :
  e ∈ generate60JiaZi currentYear ↔
  ∃ i, (0 ≤ i < 60)%Z ∧ e = jiazi_entry currentYear i.
Proof.
  unfold generate60JiaZi. rewrite list_elem_of_fmap.
  split.
  - intros (i & -> & Hi). apply elem_of_seqZ in Hi. exists i. split; [lia|done].
  - intros (i & Hi & ->). exists i. split; [done|]. apply elem_of_seqZ. lia.
Qed.

Lemma jiazi_entry_name (currentYear i : Z) :
  name (jiazi_entry currentYear i) = label_of_offset i.
Proof. unfold jiazi_entry. by destruct (_ >? _)%Z. Qed.

Lemma jiazi_entry_year (currentYear i : Z) : year (jiazi_entry currentYear i) = i.
Proof. unfold jiazi_entry. by destruct (_ >? _)%Z. Qed.

(** The anchor year lies in the sixty years that end at [currentYear] and sits
    at position [i] of the cycle counted from the year 4; this holds for
    every clock reading. *)
Lemma jiazi_entry_startYear (currentYear i : Z) :
  (0 ≤ i < 60)%Z →
  (currentYear - 60 < startYear (jiazi_entry currentYear i) ≤ currentYear)%Z
  ∧ ((startYear (jiazi_entry currentYear i) - 4) `mod` 60 = i)%Z.
Proof.
  intros Hi. unfold jiazi_entry.
  pose proof (Z.div_mod (currentYear - 4) 60 ltac:(lia)) as Hdm.
  pose proof (Z.mod_pos_bound (currentYear - 4) 60 ltac:(lia)) as Hb.
  set (cycles := ((currentYear - 4) / 60)%Z) in *.
  destruct (Z.gtb_spec (4 + i + cycles * 60) currentYear) as [Hgt|Hle]; simpl.
  - split; [lia|].
    replace (4 + i + cycles * 60 - 60 - 4)%Z with (i + (cycles - 1) * 60)%Z by lia.
    rewrite Z.mod_add by lia. apply Z.mod_small. lia.
  - split; [lia|].
    replace (4 + i + cycles * 60 - 4)%Z with (i + cycles * 60)%Z by lia.
    rewrite Z.mod_add by lia. apply Z.mod_small. lia.
Qed.

Lemma generate60JiaZi_names (currentYear : Z) :
  name <$> generate60JiaZi currentYear = label_of_offset <$> seqZ 0 60.
Proof.
  unfold generate60JiaZi. rewrite <- list_fmap_compose.
  apply list_fmap_ext. intros k i _. simpl. apply jiazi_entry_name.
Qed.

(** C4: when the clock reads a year from 63 on (any real clock does), the
    table has sixty entries with pairwise distinct names, and each entry's
    [startYear] carries the entry's name as its year label, lies in the sixty
    years ending at the current year, and is the latest such year: no later
    year up to the current one has that label. *)
Theorem generate60JiaZi_cycle (currentYear : Z) :
  (63 ≤ currentYear)%Z →
  length (generate60JiaZi currentYear) = 60%nat
  ∧ NoDup (name <$> generate60JiaZi currentYear)
  ∧ ∀ e, e ∈ generate60JiaZi currentYear →
      getGanZhiYear (startYear e) = name e
      ∧ (currentYear - 60 < startYear e ≤ currentYear)%Z
      ∧ ∀ y, (startYear e < y ≤ currentYear)%Z → getGanZhiYear y ≠ name e.
Proof.
  intros Hcy. split_and!.
  - unfold generate60JiaZi. by rewrite length_fmap, length_seqZ.
  - rewrite generate60JiaZi_names. apply labels_NoDup.
  - intros e (i & Hi & ->)%generate60JiaZi_elem.
    destruct (jiazi_entry_startYear currentYear i Hi) as [Hwin Hpos].
    rewrite jiazi_entry_name. split; [|split; [done|]].
    + rewrite getGanZhiYear_offset by lia. by rewrite Hpos.
    + intros y Hy. rewrite getGanZhiYear_offset by lia.
      intros Heq. apply label_of_offset_inj in Heq; [|by apply Z.mod_pos_bound|done].
      revert Hpos Heq Hy Hwin.
      generalize (startYear (jiazi_entry currentYear i)). intros sy Hpos Heq Hy Hwin.
      pose proof (Z.div_mod (y - 4) 60 ltac:(lia)).
      pose proof (Z.div_mod (sy - 4) 60 ltac:(lia)).
      lia.
Qed.

Lemma generate60JiaZi_cycle_2026 :
  (63 ≤ 2026)%Z
  ∧ length (generate60JiaZi 2026) = 60%nat
  ∧ NoDup (name <$> generate60JiaZi 2026)
  ∧ ∀ e, e ∈ generate60JiaZi 2026 →
      getGanZhiYear (startYear e) = name e
      ∧ (2026 - 60 < startYear e ≤ 2026)%Z
      ∧ ∀ y, (startYear e < y ≤ 2026)%Z → getGanZhiYear y ≠ name e.
Proof. split; [lia|apply (generate60JiaZi_cycle 2026); lia]. Defined.

(** Below the year 63 the window reaches under the epoch, where the year label
    is the one of C1: the entry of index 59 generated in the year 10 is
    anchored at the year 3. *)
Example generate60JiaZi_year_10_entry_59 :
  generate60JiaZi 10 !! 59%nat = Some (mkJiazi (JSString "癸亥") 59 3)
  ∧ getGanZhiYear 3 = JSNaN.
Proof. split; reflexivity. Qed.

(** ** The element table covers the cycle *)

Lemma cycle_labels_have_planet (o : Z) :
  (0 ≤ o < 60)%Z → has_explicit_planet (label_of_offset o) = true.
Proof.
  revert o. apply (cycle_forall (λ o, has_explicit_planet (label_of_offset o) = true)).
  by vm_compute.
Qed.

Lemma has_explicit_planet_inv (v : jsval) :
  has_explicit_planet v = true →
  ∃ nm p, v = JSString nm ∧ jiaziToPlanet !! nm = Some p
        ∧ p ∈ five_planets ∧ js_truthy (Some p) = true.
Proof.
  destruct v as [|nm|]; cbn [has_explicit_planet]; try (intros; discriminate).
  destruct (jiaziToPlanet !! nm) as [p|] eqn:Hnm; [|intros; discriminate].
  intros [Hp Ht]%andb_prop. apply bool_decide_eq_true_1 in Hp.
  exists nm, p. repeat split; assumption.
Qed.

(** C10: every name [generate60JiaZi] produces is an own key of
    [jiaziToPlanet]; the entry is one of the five planets, the lookup takes
    the explicit operand of [||] and never the ['default'] one, and
    [handleJiaziSelect] targets that planet. *)
Theorem jiaziToPlanet_covers_cycle (currentYear : Z) (e : JiaziEntry) :
  e ∈ generate60JiaZi currentYear →
  ∃ nm p, name e = JSString nm
    ∧ jiaziToPlanet !! nm = Some p
    ∧ p ∈ five_planets
    ∧ planet_branch nm = ExplicitEntry
    ∧ ∀ Date_y_0_1 sy st,
        targetPlanet (handleJiaziSelect Date_y_0_1 sy nm st) = Some p.
Proof.
  intros (i & Hi & ->)%generate60JiaZi_elem.
  rewrite jiazi_entry_name.
  destruct (has_explicit_planet_inv _ (cycle_labels_have_planet i Hi))
    as (nm & p & -> & Hp & Hfive & Ht).
  exists nm, p.
  split; [reflexivity|]. split; [exact Hp|]. split; [exact Hfive|]. split.
  - unfold planet_branch. rewrite Hp, Ht. reflexivity.
  - intros D sy st. unfold handleJiaziSelect, js_or.
    cbn [targetPlanet]. rewrite Hp, Ht, Ht. reflexivity.
Qed.

Lemma jiaziToPlanet_covers_cycle_2026 :
  mkJiazi (JSString "壬寅") 38 2022 ∈ generate60JiaZi 2026
  ∧ ∃ nm p, name (mkJiazi (JSString "壬寅") 38 2022) = JSString nm
    ∧ jiaziToPlanet !! nm = Some p
    ∧ p ∈ five_planets
    ∧ planet_branch nm = ExplicitEntry
    ∧ ∀ Date_y_0_1 sy st,
        targetPlanet (handleJiaziSelect Date_y_0_1 sy nm st) = Some p.
Proof.
  assert (mkJiazi (JSString "壬寅") 38 2022 ∈ generate60JiaZi 2026) as Hin.
  { apply generate60JiaZi_elem. exists 38%Z. split; [lia|reflexivity]. }
  split; [exact Hin|exact (jiaziToPlanet_covers_cycle 2026 _ Hin)].
Defined.

Example jiaziToPlanet_renyin : jiaziToPlanet !! "壬寅" = Some "jupiter".
Proof. reflexivity. Qed.

(** The names of the cycle are the stem-branch pairs of equal parity. *)
Lemma cycle_names_equal_parity (i j : Z) :
  (0 ≤ i < 10)%Z → (0 ≤ j < 12)%Z →
  ((i `mod` 2 = j `mod` 2)%Z ↔
   js_add (js_index HEAVENLY_STEMS i) (js_index EARTHLY_BRANCHES j)
     ∈ label_of_offset <$> seqZ 0 60).
Proof.
  intros Hi Hj.
  set (pair_ok := λ i j : Z,
    Bool.eqb (i `mod` 2 =? j `mod` 2)%Z
      (bool_decide (js_add (js_index HEAVENLY_STEMS i) (js_index EARTHLY_BRANCHES j)
                      ∈ label_of_offset <$> seqZ 0 60))).
  assert (forallb (λ i, forallb (pair_ok i) (seqZ 0 12)) (seqZ 0 10) = true) as Hall.
  { vm_compute. reflexivity. }
  rewrite forallb_forall in Hall.
  specialize (Hall i). rewrite <- list_elem_of_In, elem_of_seqZ in Hall.
  specialize (Hall ltac:(lia)). rewrite forallb_forall in Hall.
  specialize (Hall j). rewrite <- list_elem_of_In, elem_of_seqZ in Hall.
  specialize (Hall ltac:(lia)). unfold pair_ok in Hall.
  apply Bool.eqb_prop in Hall.
  rewrite <- Z.eqb_eq, Hall. apply bool_decide_eq_true.
Qed.

(** ** The solar-term index through a calendar year *)

Lemma days_from_civil_year_length (y : Z) :
  (days_from_civil (y + 1) 1 1 = days_from_civil y 1 1 + daysInYear y)%Z.
Proof.
  unfold days_from_civil, daysInYear, isLeapYear.
  cbn [Z.leb Z.gtb Z.compare Pos.compare Pos.compare_cont].
  replace (y + 1 - 1)%Z with y by lia.
  destruct (Z.eqb_spec (y `mod` 4) 0) as [H4|H4];
  destruct (Z.eqb_spec (y `mod` 100) 0) as [H100|H100];
  destruct (Z.eqb_spec (y `mod` 400) 0) as [H400|H400]; cbn [andb negb orb];
  Z.to_euclidean_division_equations; lia.
Qed.

Lemma days_from_civil_dec31 (y : Z) :
  (days_from_civil y 12 31 = days_from_civil y 1 1 + daysInYear y - 1)%Z.
Proof.
  rewrite <- days_from_civil_year_length.
  unfold days_from_civil. cbn [Z.leb Z.gtb Z.compare Pos.compare Pos.compare_cont].
  replace (y + 1 - 1)%Z with y by lia.
  change ((153 * (12 - 3) + 2) / 5)%Z with 275%Z.
  change ((153 * (1 + 9) + 2) / 5)%Z with 306%Z. lia.
Qed.

(** The day numbers 1 .. [daysInYear y] run from January 1 to December 31 of
    the year [y], the dates the date input yields for that year. *)
Lemma dateInYear_first_last (y : Z) :
  dateInYear y 1 0 = mkDate y (Date_parse_ymd y 1 1)
  ∧ dateInYear y (daysInYear y) 0 = mkDate y (Date_parse_ymd y 12 31).
Proof.
  unfold dateInYear, Date_parse_ymd. rewrite days_from_civil_dec31.
  split; f_equal; lia.
Qed.

Lemma days_from_civil_day_0 (y : Z) :
  (days_from_civil y (0 + 1) 0 = days_from_civil y 1 1 - 1)%Z.
Proof.
  change (0 + 1)%Z with 1%Z. unfold days_from_civil.
  cbn [Z.leb Z.gtb Z.compare Pos.compare Pos.compare_cont]. lia.
Qed.

(** Outside the years 0 .. 99 the base of the day count is the eve of
    January 1 of the date's own year. *)
Lemma Date_y_0_0_UTC_own_year (y : Z) :
  (y < 0 ∨ 99 < y)%Z → Date_y_0_0_UTC y = ((days_from_civil y 1 1 - 1) * msPerDay)%Z.
Proof.
  intros Hy. unfold Date_y_0_0_UTC, Date_local_UTC.
  destruct (Z.leb_spec 0 y); destruct (Z.leb_spec y 99); cbn [andb]; try lia;
    by rewrite days_from_civil_day_0.
Qed.

(** In the years 0 .. 99 it is the eve of January 1 of the year 1900 + y. *)
Lemma Date_y_0_0_UTC_two_digit_year (y : Z) :
  (0 ≤ y ≤ 99)%Z →
  Date_y_0_0_UTC y = ((days_from_civil (1900 + y) 1 1 - 1) * msPerDay)%Z.
Proof.
  intros Hy. unfold Date_y_0_0_UTC, Date_local_UTC.
  destruct (Z.leb_spec 0 y); destruct (Z.leb_spec y 99); cbn [andb]; try lia.
  by rewrite days_from_civil_day_0.
Qed.

Lemma dayOfYear_dateInYear (y d s : Z) :
  (y < 0 ∨ 99 < y)%Z → (0 ≤ s < msPerDay)%Z →
  dayOfYear Date_y_0_0_UTC (dateInYear y d s) = d.
Proof.
  intros Hy Hs. unfold dayOfYear, dateInYear. cbn [getTime getFullYear].
  rewrite Date_y_0_0_UTC_own_year by done.
  replace ((days_from_civil y 1 1 + (d - 1)) * msPerDay + s
           - (days_from_civil y 1 1 - 1) * msPerDay)%Z
    with (s + d * msPerDay)%Z by lia.
  unfold msPerDay in *. rewrite Z.div_add by lia.
  rewrite Z.div_small by lia. lia.
Qed.

Lemma solar_term_index_of_day (y d s : Z) :
  (y < 0 ∨ 99 < y)%Z → (0 ≤ s < msPerDay)%Z →
  getCurrentSolarTermIndex Date_y_0_0_UTC (dateInYear y d s)
  = ((d * 24 / 365) `rem` 24)%Z.
Proof.
  intros Hy Hs. unfold getCurrentSolarTermIndex.
  by rewrite dayOfYear_dateInYear.
Qed.

(** Up to day 364 the index is the quotient itself. *)
Lemma solar_term_index_before_wrap (d : Z) :
  (0 ≤ d ≤ 364)%Z → ((d * 24 / 365) `rem` 24 = d * 24 / 365)%Z
                   ∧ (0 ≤ d * 24 / 365 ≤ 23)%Z.
Proof.
  intros Hd.
  assert (0 ≤ d * 24 / 365 ≤ 23)%Z as Hq.
  { split; [apply Z.div_pos; lia|].
    apply Z.lt_succ_r, Z.div_lt_upper_bound; lia. }
  split; [|done]. apply Z.rem_small. lia.
Qed.

(** Outside the years 0 .. 99, through the days January 1 .. December 31 of a
    year at a fixed time of day, the index stays within 0 .. 23 and drops
    exactly once, from 23 on day 364 to 0 on day 365; on day 366 of a leap
    year it is still 0. *)
Lemma solar_term_index_sweep_own_year (y s : Z) :
  (y < 0 ∨ 99 < y)%Z → (0 ≤ s < msPerDay)%Z →
  let index d := getCurrentSolarTermIndex Date_y_0_0_UTC (dateInYear y d s) in
  (∀ d, (1 ≤ d ≤ daysInYear y)%Z → (0 ≤ index d ≤ 23)%Z)
  ∧ (∀ d, (1 ≤ d < daysInYear y)%Z → ((index (d + 1) < index d)%Z ↔ d = 364%Z))
  ∧ (∀ d, (1 ≤ d < daysInYear y)%Z → d ≠ 364%Z → (index d ≤ index (d + 1))%Z)
  ∧ index 364%Z = 23%Z ∧ index 365%Z = 0%Z
  ∧ (daysInYear y = 366%Z → index 366%Z = 0%Z).
Proof.
  intros Hy Hs index.
  assert (∀ d, index d = ((d * 24 / 365) `rem` 24)%Z) as Hidx.
  { intros d. unfold index. by apply solar_term_index_of_day. }
  clearbody index.
  assert (daysInYear y = 365 ∨ daysInYear y = 366)%Z as HN.
  { unfold daysInYear. destruct (isLeapYear y); lia. }
  assert (index 364 = 23 ∧ index 365 = 0 ∧ index 366 = 0)%Z as (H364 & H365 & H366).
  { rewrite !Hidx. split_and!; reflexivity. }
  assert (∀ d, (0 ≤ d ≤ 364)%Z → index d = (d * 24 / 365)%Z ∧ (0 ≤ index d ≤ 23)%Z)
    as Hlow.
  { intros d Hd. rewrite Hidx.
    destruct (solar_term_index_before_wrap d Hd) as [-> ?]. done. }
  assert (∀ d, (1 ≤ d < 364)%Z → (index d ≤ index (d + 1))%Z) as Hmono.
  { intros d Hd.
    destruct (Hlow d ltac:(lia)) as [-> _].
    destruct (Hlow (d + 1)%Z ltac:(lia)) as [-> _].
    apply Z.div_le_mono; lia. }
  assert (∀ d, (364 ≤ d < daysInYear y)%Z → d = 364%Z ∨ d = 365%Z) as Hlast by lia.
  split; [|split; [|split; [|split; [done|split; [done|done]]]]].
  - intros d Hd.
    destruct (Z.le_gt_cases d 364) as [Hle|Hgt]; [apply Hlow; lia|].
    assert (d = 365 ∨ d = 366)%Z as [-> | ->] by lia.
    + rewrite H365. lia.
    + rewrite H366. lia.
  - intros d Hd.
    destruct (Z.lt_ge_cases d 364) as [Hlt|Hge].
    + specialize (Hmono d ltac:(lia)). lia.
    + destruct (Hlast d ltac:(lia)) as [-> | ->].
      * change (364 + 1)%Z with 365%Z. rewrite H364, H365. lia.
      * change (365 + 1)%Z with 366%Z. rewrite H365, H366. lia.
  - intros d Hd Hne.
    destruct (Z.lt_ge_cases d 364) as [Hlt|Hge]; [apply Hmono; lia|].
    destruct (Hlast d ltac:(lia)) as [-> | ->]; [done|].
    change (365 + 1)%Z with 366%Z. rewrite H365, H366. lia.
Qed.

Lemma two_digit_year_base_is_later (y : Z) :
  (0 ≤ y ≤ 99)%Z → (days_from_civil y 1 1 + 366 < days_from_civil (1900 + y) 1 1 - 1)%Z.
Proof.
  intros Hy.
  assert (Forall (λ y, days_from_civil y 1 1 + 366 < days_from_civil (1900 + y) 1 1 - 1)%Z
                 (seqZ 0 100)) as Hall.
  { apply (bool_decide_unpack _). by vm_compute. }
  rewrite Forall_forall in Hall. apply Hall, elem_of_seqZ. lia.
Qed.

(** For a date of a year 0 .. 99 the day count is taken from the eve of the
    year 1900 + y: it is negative on every day of the year, so the index lies
    in -23 .. 0, and whenever it is not 0 the term read is [undefined]. *)
Lemma solar_term_index_two_digit_year (y d s : Z) :
  (0 ≤ y ≤ 99)%Z → (1 ≤ d ≤ daysInYear y)%Z → (0 ≤ s < msPerDay)%Z →
  (dayOfYear Date_y_0_0_UTC (dateInYear y d s) < 0)%Z
  ∧ (-23 ≤ getCurrentSolarTermIndex Date_y_0_0_UTC (dateInYear y d s) ≤ 0)%Z
  ∧ (getCurrentSolarTermIndex Date_y_0_0_UTC (dateInYear y d s) ≠ 0%Z →
     getCurrentSolarTerm Date_y_0_0_UTC (dateInYear y d s) = JSUndefined).
Proof.
  intros Hy Hd Hs.
  assert (daysInYear y ≤ 366)%Z as HN by (unfold daysInYear; destruct (isLeapYear y); lia).
  pose proof (two_digit_year_base_is_later y Hy) as Hbase.
  assert (dayOfYear Date_y_0_0_UTC (dateInYear y d s) < 0)%Z as Hneg.
  { unfold dayOfYear, dateInYear. cbn [getTime getFullYear].
    rewrite Date_y_0_0_UTC_two_digit_year by done.
    apply Z.div_lt_upper_bound; unfold msPerDay in *; lia. }
  assert (-23 ≤ getCurrentSolarTermIndex Date_y_0_0_UTC (dateInYear y d s) ≤ 0)%Z as Hidx.
  { unfold getCurrentSolarTermIndex. revert Hneg.
    generalize (dayOfYear Date_y_0_0_UTC (dateInYear y d s)). intros doy Hneg.
    Z.to_euclidean_division_equations. lia. }
  split; [done|]. split; [done|].
  intros Hne. unfold getCurrentSolarTerm.
  change ((dayOfYear Date_y_0_0_UTC (dateInYear y d s) * 24 / 365) `rem` 24)%Z
    with (getCurrentSolarTermIndex Date_y_0_0_UTC (dateInYear y d s)).
  apply js_index_negative. lia.
Qed.

(** C5 (the code departs from the claim): the date 0050-06-21 is day 172 of
    the year 50; [new Date(50, 0, 0)] is 1949-12-31, because the constructor
    reads the year 50 as 1950, so the day count is -693788, the index is -19,
    outside 0 .. 23, and the term read is [undefined]. *)
Theorem solar_term_index_year_50 :
  dateInYear 50 172 0 = mkDate 50 (Date_parse_ymd 50 6 21)
  ∧ Date_y_0_0_UTC 50 = Date_parse_ymd 1949 12 31
  ∧ dayOfYear Date_y_0_0_UTC (mkDate 50 (Date_parse_ymd 50 6 21)) = (-693788)%Z
  ∧ getCurrentSolarTermIndex Date_y_0_0_UTC (mkDate 50 (Date_parse_ymd 50 6 21)) = (-19)%Z
  ∧ getCurrentSolarTerm Date_y_0_0_UTC (mkDate 50 (Date_parse_ymd 50 6 21)) = JSUndefined.
Proof. split_and!; reflexivity. Qed.

Example solar_term_last_day_of_leap_year :
  dayOfYear Date_y_0_0_UTC (mkDate 2024 (Date_parse_ymd 2024 12 31)) = 366%Z
  ∧ getCurrentSolarTermIndex Date_y_0_0_UTC (mkDate 2024 (Date_parse_ymd 2024 12 31)) = 0%Z
  ∧ getCurrentSolarTerm Date_y_0_0_UTC (mkDate 2024 (Date_parse_ymd 2024 12 31))
    = JSString "立春".
Proof. split_and!; reflexivity. Qed.

Example solar_term_last_day_of_common_year :
  dayOfYear Date_y_0_0_UTC (mkDate 2025 (Date_parse_ymd 2025 12 31)) = 365%Z
  ∧ getCurrentSolarTermIndex Date_y_0_0_UTC (mkDate 2025 (Date_parse_ymd 2025 12 30)) = 23%Z
  ∧ getCurrentSolarTermIndex Date_y_0_0_UTC (mkDate 2025 (Date_parse_ymd 2025 12 31)) = 0%Z.
Proof. split_and!; reflexivity. Qed.

(** ** The orbital position model *)

Lemma cos_one_turn (x : R) : cos (x + 2 * PI) = cos x.
Proof. rewrite cos_plus, cos_2PI, sin_2PI. lra. Qed.

Lemma sin_one_turn (x : R) : sin (x + 2 * PI) = sin x.
Proof. rewrite sin_plus, cos_2PI, sin_2PI. lra. Qed.

Lemma norm3_circle (d θ : R) :
  (0 <= d)%R → norm3 (d * cos θ, 0, d * sin θ)%R = d.
Proof.
  intros Hd. unfold norm3.
  replace (d * cos θ * (d * cos θ) + 0 * 0 + d * sin θ * (d * sin θ))%R
    with (d * d * (Rsqr (sin θ) + Rsqr (cos θ)))%R by (unfold Rsqr; lra).
  rewrite sin2_cos2, Rmult_1_r. by apply sqrt_square.
Qed.

Lemma orbitalPeriods_Earth : orbitalPeriods !! "Earth" = Some 365.256%R.
Proof. reflexivity. Qed.

Lemma orbitalPeriods_inv (key : string) (P : R) :
  orbitalPeriods !! key = Some P →
  key ≠ "" ∧ (0 < P)%R.
Proof.
  intros Hk. apply elem_of_list_to_map_2 in Hk.
  repeat (apply elem_of_cons in Hk as [[= -> ->]|Hk]; [split; [done|lra]|]).
  by apply elem_of_nil in Hk.
Qed.

Section OrbitalProperties.
Variable Body : list (string * string).

Lemma period_of_listed_body (body key : string) (P : R) :
  bodyKey Body body = Some key → orbitalPeriods !! key = Some P →
  period Body body = P.
Proof.
  intros Hkey HP. destruct (orbitalPeriods_inv key P HP) as [Hne Hpos].
  unfold period, js_or_string. rewrite Hkey. unfold js_truthy.
  rewrite (proj2 (String.eqb_neq key "") Hne). cbn [negb].
  rewrite HP. destruct (Req_dec_T P 0); [lra|done].
Qed.

Lemma period_fallback (body : string) :
  (∀ key, bodyKey Body body = Some key → orbitalPeriods !! key = None) →
  period Body body = 365.256%R.
Proof.
  intros Hmiss. unfold period, js_or_string.
  destruct (bodyKey Body body) as [key|] eqn:Hkey; cbn [js_truthy].
  - destruct (String.eqb key "") eqn:Hempty; cbn [negb].
    + rewrite orbitalPeriods_Earth. by destruct (Req_dec_T _ _).
    + by rewrite (Hmiss key).
  - rewrite orbitalPeriods_Earth. by destruct (Req_dec_T _ _).
Qed.

(** C6: whatever the body and the time, the position is
    [(R cos θ, 0, R sin θ)] for the phase angle [θ] of the body at that time,
    so its second component is 0 and its Euclidean norm is the orbit radius
    [R] (coordinates as real numbers). *)
Theorem calculatePosition_on_circle (time : Date) (body : string) (distance : R) :
  (0 <= distance)%R →
  calculatePosition Body time body distance
    = (distance * cos (angle Body time body), 0, distance * sin (angle Body time body))%R
  ∧ norm3 (calculatePosition Body time body distance) = distance.
Proof.
  intros Hd. split; [reflexivity|].
  unfold calculatePosition. by apply norm3_circle.
Qed.

(** C7: for a body listed in [orbitalPeriods] with period [P] days, moving
    the time forward by [P] days adds one full turn [2 * PI] to the phase
    angle and leaves the position unchanged (coordinates as real
    numbers). *)
Theorem calculatePosition_periodic (body key : string) (P distance : R)
    (t t' : Date) :
  bodyKey Body body = Some key → orbitalPeriods !! key = Some P →
  IZR (getTime t') = (IZR (getTime t) + P * IZR msPerDay)%R →
  angle Body t' body = (angle Body t body + 2 * PI)%R
  ∧ calculatePosition Body t' body distance = calculatePosition Body t body distance.
Proof.
  intros Hkey HP Ht.
  assert (angle Body t' body = (angle Body t body + 2 * PI)%R) as Hangle.
  { unfold angle, daysSinceEpoch.
    rewrite (period_of_listed_body body key P Hkey HP).
    destruct (orbitalPeriods_inv key P HP) as [_ Hpos].
    rewrite !minus_IZR, Ht. unfold msPerDay.
    rewrite !mult_IZR. field. lra. }
  split; [done|].
  unfold calculatePosition. by rewrite Hangle, cos_one_turn, sin_one_turn.
Qed.

(** C8: a body whose key is missing from [orbitalPeriods] (no member of
    [Body] has that value, or the member found has no period) moves with
    the period 365.256: the position is the ordinary triple at the requested
    radius, computed with that period. *)
Theorem calculatePosition_unknown_body (time : Date) (body : string) (distance : R) :
  (∀ key, bodyKey Body body = Some key → orbitalPeriods !! key = None) →
  period Body body = 365.256%R
  ∧ calculatePosition Body time body distance
      = (distance * cos (daysSinceEpoch time / 365.256 * PI * 2), 0,
         distance * sin (daysSinceEpoch time / 365.256 * PI * 2))%R
  ∧ ((0 <= distance)%R → norm3 (calculatePosition Body time body distance) = distance).
Proof.
  intros Hmiss. pose proof (period_fallback body Hmiss) as Hper.
  split; [done|]. split.
  - unfold calculatePosition, angle. by rewrite Hper.
  - intros Hd. unfold calculatePosition. by apply norm3_circle.
Qed.
End OrbitalProperties.

Lemma calculatePosition_on_circle_Earth :
  (0 <= 24)%R
  ∧ calculatePosition CelestialBodyId J2000 "Earth" 24
      = (24 * cos (angle CelestialBodyId J2000 "Earth"), 0,
         24 * sin (angle CelestialBodyId J2000 "Earth"))%R
  ∧ norm3 (calculatePosition CelestialBodyId J2000 "Earth" 24) = 24%R.
Proof.
  split; [lra|].
  apply (calculatePosition_on_circle CelestialBodyId J2000 "Earth" 24). lra.
Defined.

Lemma calculatePosition_periodic_Earth :
  bodyKey CelestialBodyId "Earth" = Some "Earth"
  ∧ orbitalPeriods !! "Earth" = Some 365.256%R
  ∧ IZR (getTime (mkDate 2001 978242918400))
    = (IZR (getTime (mkDate 2000 946684800000)) + 365.256 * IZR msPerDay)%R
  ∧ angle CelestialBodyId (mkDate 2001 978242918400) "Earth"
    = (angle CelestialBodyId (mkDate 2000 946684800000) "Earth" + 2 * PI)%R
  ∧ calculatePosition CelestialBodyId (mkDate 2001 978242918400) "Earth" 24
    = calculatePosition CelestialBodyId (mkDate 2000 946684800000) "Earth" 24.
Proof.
  assert (IZR (getTime (mkDate 2001 978242918400))
          = (IZR (getTime (mkDate 2000 946684800000)) + 365.256 * IZR msPerDay)%R) as Ht.
  { unfold msPerDay. cbn [getTime]. rewrite !mult_IZR. lra. }
  split; [reflexivity|]. split; [reflexivity|]. split; [exact Ht|].
  exact (calculatePosition_periodic CelestialBodyId "Earth" "Earth" 365.256 24
           (mkDate 2000 946684800000) (mkDate 2001 978242918400) eq_refl eq_refl Ht).
Defined.

Lemma calculatePosition_unknown_body_Sun :
  (∀ key, bodyKey CelestialBodyId "Sun" = Some key → orbitalPeriods !! key = None)
  ∧ period CelestialBodyId "Sun" = 365.256%R
  ∧ calculatePosition CelestialBodyId J2000 "Sun" 24
      = (24 * cos (daysSinceEpoch J2000 / 365.256 * PI * 2), 0,
         24 * sin (daysSinceEpoch J2000 / 365.256 * PI * 2))%R
  ∧ ((0 <= 24)%R → norm3 (calculatePosition CelestialBodyId J2000 "Sun" 24) = 24%R).
Proof.
  assert (∀ key, bodyKey CelestialBodyId "Sun" = Some key → orbitalPeriods !! key = None)
    as Hmiss.
  { intros key [= <-]. reflexivity. }
  split; [exact Hmiss|].
  exact (calculatePosition_unknown_body CelestialBodyId J2000 "Sun" 24 Hmiss).
Defined.

(** A value that names no member of [Body] takes the same fallback. *)
Example period_of_unlisted_value : period CelestialBodyId "Vulcan" = 365.256%R.
Proof. apply period_fallback. intros key [=]. Qed.

(** Every body the scene tracks has a positive radius and a period of its
    own, so its positions lie on the circle of its radius. *)
Lemma tracked_bodies_on_circle (key : string) (R : R) :
  (key, R) ∈ tracked_bodies →
  (∃ P, orbitalPeriods !! key = Some P)
  ∧ ∀ Body time body, norm3 (calculatePosition Body time body R) = R.
Proof.
  intros Hin. unfold tracked_bodies in Hin.
  repeat (apply elem_of_cons in Hin as [[= -> ->]|Hin];
          [split; [eexists; reflexivity|];
           intros; unfold calculatePosition; apply norm3_circle; lra|]).
  by apply elem_of_nil in Hin.
Qed.

(** At the reference epoch the Earth sits at [[24, 0, 0]]. *)
Example calculatePosition_Earth_at_epoch :
  calculatePosition CelestialBodyId J2000 "Earth" 24 = (24, 0, 0)%R.
Proof.
  unfold calculatePosition, angle, daysSinceEpoch, J2000. cbn [getTime].
  rewrite Z.sub_diag.
  replace (0 / (1000 * 60 * 60 * 24) / period CelestialBodyId "Earth" * PI * 2)%R
    with 0%R by (unfold Rdiv; lra).
  rewrite cos_0, sin_0. f_equal; [f_equal|]; lra.
Qed.

(** ** The camera focus controller *)

(** The clamp makes the guard of [animate] hold at every instant. *)
Lemma progress_at_le_1 (a : Animation) (now : Q) :
  Qle_bool (progress_at a now) 1 = true.
Proof. apply Qle_bool_iff. unfold progress_at. apply Q.le_min_r. Qed.

(** So [animate] always takes its first branch: it moves the camera and
    requests the next frame, and leaves the flags as they were. *)
Lemma animate_reschedules (a : Animation) (now : Q) (w : Scene) :
  isAnimating (animate a now w) = isAnimating w
  ∧ enabled <$> controlsRef (animate a now w) = enabled <$> controlsRef w
  ∧ animationRef (animate a now w) = Some (nextHandle w)
  ∧ frameQueue (animate a now w) = frameQueue w ++ [(nextHandle w, a)].
Proof.
  unfold animate. rewrite progress_at_le_1.
  cbn [requestAnimationFrame isAnimating controlsRef animationRef frameQueue
       camera_position nextHandle].
  split_and!; try reflexivity.
  by destruct (controlsRef w).
Qed.

Lemma run_callbacks_flags (cbs : list (nat * Animation)) (now : Q) (w : Scene) :
  let w' := fold_left (λ acc e, animate (snd e) now acc) cbs w in
  isAnimating w' = isAnimating w
  ∧ enabled <$> controlsRef w' = enabled <$> controlsRef w
  ∧ (cbs ≠ [] → animationRef w' ≠ None ∧ frameQueue w' ≠ []).
Proof.
  revert w. induction cbs as [|[h a] cbs IH]; intros w; cbn [fold_left snd].
  - split_and!; [done..|]. intros []; done.
  - destruct (IH (animate a now w)) as (Hflag & Hen & Hrest).
    destruct (animate_reschedules a now w) as (Hflag1 & Hen1 & Href1 & Hq1).
    split_and!; [congruence..|]. intros _.
    destruct cbs as [|e cbs]; [|by apply Hrest].
    cbn [fold_left]. rewrite Href1, Hq1. split; [done|].
    intros Hnil. by apply app_eq_nil in Hnil as [_ [=]].
Qed.

Lemma frame_in_flight (now : Q) (w : Scene) : in_flight w → in_flight (frame now w).
Proof.
  intros (Hflag & Hen & _ & Hq). unfold frame.
  pose proof (run_callbacks_flags (frameQueue w) now
    (mkScene (camera_position w) (controlsRef w) (animationRef w) (isAnimating w)
             [] (nextHandle w))) as (Hflag' & Hen' & Hrest).
  cbn [isAnimating controlsRef] in Hflag', Hen'.
  destruct (Hrest Hq) as [Href' Hq'].
  unfold in_flight. rewrite Hflag', Hen'. done.
Qed.

(** However many frames are rendered, and whenever, a transition that has
    started never returns to [Idle] by itself. *)
Lemma frames_in_flight (nows : list Q) (w : Scene) :
  in_flight w →
  in_flight (frames nows w) ∧ controller_state (frames nows w) = Transitioning.
Proof.
  intros Hw.
  assert (in_flight (frames nows w)) as Hfl.
  { unfold frames. revert w Hw.
    induction nows as [|now nows IH]; intros w Hw; cbn [fold_left]; [done|].
    by apply IH, frame_in_flight. }
  split; [done|].
  destruct Hfl as (Hflag & Hen & _ & _).
  unfold controller_state. rewrite Hen. reflexivity.
Qed.

Lemma focus_effect_starts (tgt : Vector3) (now : Q) (w : Scene) (c : Controls) :
  controlsRef w = Some c → isAnimating w = false →
  in_flight (focus_effect (Some tgt) now w).
Proof.
  intros Hc Hflag. unfold focus_effect. rewrite Hc, Hflag.
  cbn [animationRef]. destruct (animationRef w) as [h|];
    cbn [requestAnimationFrame cancelAnimationFrame isAnimating controlsRef
         animationRef frameQueue camera_position nextHandle];
    (split_and!; [done..|]); intros Hnil; by apply app_eq_nil in Hnil as [_ [=]].
Qed.

(** C2 (the code departs from the claim): a focus on the point [[24, 0, 0]]
    starts at time 0 on a mounted controller; the frame rendered at 1200 ms
    has progress 1 and brings the camera to its end position, yet the
    controller is still [Transitioning]: manual input stays disabled,
    [isAnimating] stays set, [animationRef] holds a fresh handle and the same
    callback is queued again; later frames change nothing of that. *)
Theorem focus_transition_not_idle_at_progress_1 :
  let target := mkVec 24 0 0 in
  let a := mkAnimation (mkVec 50 30 50) (mkVec 0 0 0)
             (vec_add target (mkVec 25 (25 * (6 # 10)) 25)) target 0 in
  let w1 := focus_effect (Some target) 0 mounted in
  let w2 := frame 1200 w1 in
  frameQueue w1 = [(0%nat, a)]
  ∧ progress_at a 1200 == 1
  ∧ (vx (camera_position w2) == 49 ∧ vy (camera_position w2) == 15
     ∧ vz (camera_position w2) == 25)
  ∧ controller_state w2 = Transitioning
  ∧ enabled <$> controlsRef w2 = Some false
  ∧ isAnimating w2 = true
  ∧ animationRef w2 = Some 1%nat
  ∧ frameQueue w2 = [(1%nat, a)]
  ∧ controller_state (frames [1200; 1216; 5000; 60000]%Q w1) = Transitioning.
Proof. vm_compute. repeat split; reflexivity. Qed.

(** * Further properties of the calendar functions *)

(** ** Day labels *)

Lemma daysDiff_shift (t base k : Z) :
  ((t + k * msPerDay - base) / msPerDay = (t - base) / msPerDay + k)%Z.
Proof.
  replace (t + k * msPerDay - base)%Z with (t - base + k * msPerDay)%Z by lia.
  apply Z.div_add. unfold msPerDay. lia.
Qed.

Lemma daysDiff_from_1949_09_21 (t : Z) :
  (Date_parse_ymd 1949 9 21 ≤ t)%Z →
  (0 ≤ (t - Date_parse_ymd 1949 10 1) / msPerDay + 10)%Z.
Proof.
  intros Ht.
  change (Date_parse_ymd 1949 9 21) with (-639964800000)%Z in Ht.
  change (Date_parse_ymd 1949 10 1) with (-639100800000)%Z.
  change msPerDay with 86400000%Z.
  Z.to_euclidean_division_equations. lia.
Qed.

Lemma getGanZhiDay_offset (date : Date) :
  (0 ≤ (getTime date - Date_parse_ymd 1949 10 1) / msPerDay + 10)%Z →
  getGanZhiDay date
  = label_of_offset (((getTime date - Date_parse_ymd 1949 10 1) / msPerDay + 10) `mod` 60).
Proof.
  intros Hd. unfold getGanZhiDay, label_of_offset.
  by rewrite (rem_nonneg_is_mod _ 60) by lia.
Qed.

(** X1: from 1949-09-21 (UTC) on, the day label is the well-formed label at
    position (days since 1949-10-01 + 10) mod 60 of the cycle; [k] days later
    the label stands [k] positions further round the cycle, so it comes back
    exactly when [k] is a multiple of sixty. *)
Theorem getGanZhiDay_steps_through_cycle (date : Date) (y' k : Z) :
  (Date_parse_ymd 1949 9 21 ≤ getTime date)%Z → (0 ≤ k)%Z →
  let o := (((getTime date - Date_parse_ymd 1949 10 1) / msPerDay + 10) `mod` 60)%Z in
  getGanZhiDay date = label_of_offset o
  ∧ well_formed_label (getGanZhiDay date)
  ∧ getGanZhiDay (mkDate y' (getTime date + k * msPerDay))
    = label_of_offset ((o + k) `mod` 60)
  ∧ (getGanZhiDay (mkDate y' (getTime date + k * msPerDay)) = getGanZhiDay date
     ↔ (k `mod` 60 = 0)%Z).
Proof.
  intros Ht Hk o.
  pose proof (daysDiff_from_1949_09_21 _ Ht) as Hd.
  assert (0 ≤ o < 60)%Z as Ho by (apply Z.mod_pos_bound; lia).
  assert (getGanZhiDay date = label_of_offset o) as Hlab
    by (by apply getGanZhiDay_offset).
  assert (getGanZhiDay (mkDate y' (getTime date + k * msPerDay))
          = label_of_offset ((o + k) `mod` 60)) as Hlab'.
  { rewrite getGanZhiDay_offset; cbn [getTime]; rewrite daysDiff_shift; [|lia].
    f_equal. unfold o.
    replace ((getTime date - Date_parse_ymd 1949 10 1) / msPerDay + k + 10)%Z
      with ((getTime date - Date_parse_ymd 1949 10 1) / msPerDay + 10 + k)%Z by lia.
    by rewrite Zplus_mod_idemp_l. }
  split; [done|]. split.
  { rewrite Hlab. apply label_of_offset_well_formed. lia. }
  split; [done|].
  rewrite Hlab, Hlab'. clearbody o. split.
  - intros Heq. apply label_of_offset_inj in Heq; [|by apply Z.mod_pos_bound|done].
    revert Heq. Z.to_euclidean_division_equations. lia.
  - intros Hk60. f_equal.
    rewrite Zplus_mod, Hk60, Z.add_0_r, Zmod_mod. by apply Z.mod_small.
Qed.

Lemma getGanZhiDay_steps_through_cycle_anchor :
  (Date_parse_ymd 1949 9 21 ≤ getTime (mkDate 1949 (Date_parse_ymd 1949 10 1)))%Z
  ∧ (0 ≤ 60)%Z
  ∧ getGanZhiDay (mkDate 1949 (Date_parse_ymd 1949 10 1)) = label_of_offset 10
  ∧ getGanZhiDay (mkDate 1949 (Date_parse_ymd 1949 10 1 + 60 * msPerDay))
    = getGanZhiDay (mkDate 1949 (Date_parse_ymd 1949 10 1)).
Proof.
  split; [vm_compute; discriminate|]. split; [lia|].
  destruct (getGanZhiDay_steps_through_cycle
              (mkDate 1949 (Date_parse_ymd 1949 10 1)) 1949 60)
    as (H1 & _ & _ & H4); [vm_compute; discriminate|lia|].
  split; [exact H1|]. apply H4. reflexivity.
Defined.

(** X2: before 1949-09-21 (UTC) the offset is negative and the truncating
    remainder keeps it so: unless the day count plus ten is a multiple of
    sixty, the result is not a label. *)
Theorem getGanZhiDay_before_cycle_start (date : Date) :
  (getTime date < Date_parse_ymd 1949 9 21)%Z →
  (((getTime date - Date_parse_ymd 1949 10 1) / msPerDay + 10) `mod` 60 ≠ 0)%Z →
  ¬ well_formed_label (getGanZhiDay date).
Proof.
  intros Ht Hmod.
  change (getGanZhiDay date) with
    (label_of_offset (((getTime date - Date_parse_ymd 1949 10 1) / msPerDay + 10) `rem` 60)).
  apply label_of_negative_offset.
  change (Date_parse_ymd 1949 9 21) with (-639964800000)%Z in Ht.
  revert Hmod.
  change (Date_parse_ymd 1949 10 1) with (-639100800000)%Z.
  change msPerDay with 86400000%Z. intros Hmod.
  Z.to_euclidean_division_equations. lia.
Qed.

Lemma getGanZhiDay_before_cycle_start_1949_09_20 :
  (getTime (mkDate 1949 (Date_parse_ymd 1949 9 20)) < Date_parse_ymd 1949 9 21)%Z
  ∧ (((getTime (mkDate 1949 (Date_parse_ymd 1949 9 20)) - Date_parse_ymd 1949 10 1)
        / msPerDay + 10) `mod` 60 ≠ 0)%Z
  ∧ ¬ well_formed_label (getGanZhiDay (mkDate 1949 (Date_parse_ymd 1949 9 20))).
Proof.
  assert (getTime (mkDate 1949 (Date_parse_ymd 1949 9 20)) < Date_parse_ymd 1949 9 21)%Z
    as H1 by (vm_compute; reflexivity).
  assert (((getTime (mkDate 1949 (Date_parse_ymd 1949 9 20)) - Date_parse_ymd 1949 10 1)
        / msPerDay + 10) `mod` 60 ≠ 0)%Z as H2 by (vm_compute; discriminate).
  split; [exact H1|]. split; [exact H2|].
  exact (getGanZhiDay_before_cycle_start _ H1 H2).
Defined.

Example getGanZhiDay_1949_09_20 :
  getGanZhiDay (mkDate 1949 (Date_parse_ymd 1949 9 20)) = JSNaN.
Proof. reflexivity. Qed.

(** ** Month labels *)

(** X3: from the year 4 on, the label of month [month] (1 .. 12) is the
    well-formed label at position 12 * ((year - 4) mod 5) + month - 1 of the
    cycle: its branch is the one of index [month - 1], the twelve months of a
    year take twelve consecutive positions, and five consecutive years run
    once through the sixty names. *)
Theorem getGanZhiMonth_position (year month : Z) :
  (4 ≤ year)%Z → (1 ≤ month ≤ 12)%Z →
  let o := (12 * ((year - 4) `mod` 5) + month - 1)%Z in
  (0 ≤ o < 60)%Z
  ∧ getGanZhiMonth year month = label_of_offset o
  ∧ well_formed_label (getGanZhiMonth year month)
  ∧ (o `mod` 12 = month - 1)%Z
  ∧ getGanZhiMonth (year + 5) month = getGanZhiMonth year month.
Proof.
  intros Hy Hm o.
  assert (0 ≤ (year - 4) `mod` 5 < 5)%Z as Hk by (apply Z.mod_pos_bound; lia).
  assert (0 ≤ o < 60)%Z as Ho by (unfold o; lia).
  assert (∀ y, (4 ≤ y)%Z → ((y - 4) `mod` 5 = (year - 4) `mod` 5)%Z →
            getGanZhiMonth y month = label_of_offset o) as Hgen.
  { intros y Hy4 Hsame. unfold getGanZhiMonth, label_of_offset.
    assert (((y - 4) `rem` 10) `rem` 5 = (year - 4) `mod` 5)%Z as ->.
    { rewrite <- Hsame. Z.to_euclidean_division_equations. lia. }
    f_equal; f_equal; unfold o; Z.to_euclidean_division_equations; lia. }
  split; [done|]. split; [apply Hgen; [done|done]|]. split.
  { rewrite (Hgen year) by done. apply label_of_offset_well_formed. lia. }
  split.
  { unfold o. Z.to_euclidean_division_equations. lia. }
  rewrite (Hgen year) by done. apply Hgen; [lia|].
  replace (year + 5 - 4)%Z with (year - 4 + 1 * 5)%Z by lia.
  by rewrite Z.mod_add by lia.
Qed.

Lemma getGanZhiMonth_position_2024_03 :
  (4 ≤ 2024)%Z ∧ (1 ≤ 3 ≤ 12)%Z
  ∧ (0 ≤ 12 * ((2024 - 4) `mod` 5) + 3 - 1 < 60)%Z
  ∧ getGanZhiMonth 2024 3 = label_of_offset (12 * ((2024 - 4) `mod` 5) + 3 - 1)
  ∧ well_formed_label (getGanZhiMonth 2024 3)
  ∧ ((12 * ((2024 - 4) `mod` 5) + 3 - 1) `mod` 12 = 3 - 1)%Z
  ∧ getGanZhiMonth (2024 + 5) 3 = getGanZhiMonth 2024 3.
Proof.
  split; [lia|]. split; [lia|].
  apply (getGanZhiMonth_position 2024 3); lia.
Defined.

Example getGanZhiMonth_2024_03 : getGanZhiMonth 2024 3 = JSString "丙寅".
Proof. reflexivity. Qed.

(** What the code builds for a month of 1 .. 12 when the stem index is
    negative is not a label. *)
Lemma month_label_negative_stem (i month : Z) :
  (-10 < i < 0)%Z → (1 ≤ month ≤ 12)%Z →
  ¬ well_formed_label
      (js_add (js_index HEAVENLY_STEMS i) (js_index EARTHLY_BRANCHES (month - 1))).
Proof.
  intros Hi Hm. rewrite js_index_negative by lia.
  assert (Forall (λ m, js_add JSUndefined (js_index EARTHLY_BRANCHES (m - 1))
                         ∉ stem_branch_strings) (seqZ 1 12)) as Hall.
  { apply (bool_decide_unpack _). by vm_compute. }
  rewrite Forall_forall in Hall.
  rewrite well_formed_label_elem. apply Hall, elem_of_seqZ. lia.
Qed.

(** X4: before the year 4 the month label of a month of 1 .. 12 is a label
    exactly when ((year - 4) % 10 % 5) * 2 + (month - 1), computed with the
    truncating remainder, is not negative; in the other months the stem read
    is [undefined]. *)
Theorem getGanZhiMonth_before_epoch (year month : Z) :
  (year < 4)%Z → (1 ≤ month ≤ 12)%Z →
  (well_formed_label (getGanZhiMonth year month)
   ↔ (0 ≤ (((year - 4) `rem` 10) `rem` 5) * 2 + (month - 1))%Z).
Proof.
  intros Hy Hm. unfold getGanZhiMonth.
  set (msi := ((((year - 4) `rem` 10) `rem` 5) * 2 + (month - 1))%Z).
  assert (-8 ≤ msi ≤ 11)%Z as Hmsi.
  { unfold msi. Z.to_euclidean_division_equations. lia. }
  rewrite (Z.rem_small (month - 1) 12) by lia.
  split.
  - intros Hwf. destruct (Z.le_gt_cases 0 msi) as [|Hneg]; [done|].
    exfalso. revert Hwf.
    assert (msi `rem` 10 = msi)%Z as ->.
    { clearbody msi. Z.to_euclidean_division_equations. lia. }
    apply month_label_negative_stem; lia.
  - intros Hpos.
    destruct (js_index_in_range HEAVENLY_STEMS (msi `rem` 10)) as (s & Hs & ->).
    { clearbody msi. simpl. Z.to_euclidean_division_equations. lia. }
    destruct (js_index_in_range EARTHLY_BRANCHES (month - 1)) as (b & Hb & ->).
    { simpl. lia. }
    exists s, b. split_and!; [by eapply list_elem_of_lookup_2..|done].
Qed.

Lemma getGanZhiMonth_before_epoch_year_3 :
  (3 < 4)%Z ∧ (1 ≤ 1 ≤ 12)%Z
  ∧ (well_formed_label (getGanZhiMonth 3 1)
     ↔ (0 ≤ (((3 - 4) `rem` 10) `rem` 5) * 2 + (1 - 1))%Z).
Proof.
  split; [lia|]. split; [lia|].
  apply (getGanZhiMonth_before_epoch 3 1); lia.
Defined.

Example getGanZhiMonth_3_01 : getGanZhiMonth 3 1 = JSString "undefined子".
Proof. reflexivity. Qed.

(** ** The cycle table and its picker *)

Lemma generate60JiaZi_lookup (currentYear i : Z) :
  (0 ≤ i < 60)%Z →
  generate60JiaZi currentYear !! Z.to_nat i = Some (jiazi_entry currentYear i).
Proof.
  intros Hi. unfold generate60JiaZi.
  rewrite list_lookup_fmap, lookup_seqZ_lt by lia.
  simpl. do 2 f_equal. lia.
Qed.

(** X5: whatever the clock reads, the table is in cycle order (the entry of
    index [i] has [year = i]) and its anchor years are the sixty years that
    end at the current year, each once: the year [y] of that window anchors
    the entry of index (y - 4) mod 60, and no two entries share an anchor. *)
Theorem generate60JiaZi_anchors_fill_window (currentYear y : Z) :
  (currentYear - 60 < y ≤ currentYear)%Z →
  generate60JiaZi currentYear !! Z.to_nat ((y - 4) `mod` 60)
    = Some (mkJiazi (label_of_offset ((y - 4) `mod` 60)) ((y - 4) `mod` 60) y)
  ∧ NoDup (startYear <$> generate60JiaZi currentYear)
  ∧ ∀ i e, generate60JiaZi currentYear !! i = Some e → year e = Z.of_nat i.
Proof.
  intros Hy.
  assert (0 ≤ (y - 4) `mod` 60 < 60)%Z as Hi by (apply Z.mod_pos_bound; lia).
  split_and!.
  - rewrite generate60JiaZi_lookup by done. f_equal.
    destruct (jiazi_entry_startYear currentYear _ Hi) as [Hwin Hpos].
    pose proof (jiazi_entry_name currentYear ((y - 4) `mod` 60)) as Hname.
    pose proof (jiazi_entry_year currentYear ((y - 4) `mod` 60)) as Hyear.
    destruct (jiazi_entry currentYear ((y - 4) `mod` 60)) as [n yr sy].
    cbn [name year startYear] in *. subst n yr. f_equal.
    revert Hpos. Z.to_euclidean_division_equations. lia.
  - unfold generate60JiaZi. rewrite <- list_fmap_compose.
    apply NoDup_fmap_2_strong; [|apply NoDup_seqZ].
    intros i j Hi' Hj' Heq. apply elem_of_seqZ in Hi', Hj'. simpl in Heq.
    destruct (jiazi_entry_startYear currentYear i ltac:(lia)) as [_ Hpi].
    destruct (jiazi_entry_startYear currentYear j ltac:(lia)) as [_ Hpj].
    rewrite Heq in Hpi. congruence.
  - intros i e Hlk. unfold generate60JiaZi in Hlk.
    rewrite list_lookup_fmap in Hlk.
    destruct (seqZ 0 60 !! i) as [k|] eqn:Hk; [|done].
    apply lookup_seqZ in Hk as [-> Hlt]. injection Hlk as <-.
    rewrite jiazi_entry_year. lia.
Qed.

Lemma generate60JiaZi_anchors_fill_window_2026 :
  (2026 - 60 < 2000 ≤ 2026)%Z
  ∧ generate60JiaZi 2026 !! Z.to_nat ((2000 - 4) `mod` 60)
    = Some (mkJiazi (label_of_offset ((2000 - 4) `mod` 60)) ((2000 - 4) `mod` 60) 2000)
  ∧ NoDup (startYear <$> generate60JiaZi 2026)
  ∧ ∀ i e, generate60JiaZi 2026 !! i = Some e → year e = Z.of_nat i.
Proof. split; [lia|apply (generate60JiaZi_anchors_fill_window 2026 2000); lia]. Defined.

Lemma jiaziYear_window (sy currentYear : Z) :
  (currentYear - 60 < sy + (currentYear - sy) / 60 * 60 ≤ currentYear)%Z
  ∧ ((sy + (currentYear - sy) / 60 * 60 - 4) `mod` 60 = (sy - 4) `mod` 60)%Z.
Proof.
  split; [Z.to_euclidean_division_equations; lia|].
  replace (sy + (currentYear - sy) / 60 * 60 - 4)%Z
    with (sy - 4 + (currentYear - sy) / 60 * 60)%Z by lia.
  by rewrite Z.mod_add by lia.
Qed.

(** X6: in the picker, whatever year the table was generated in and whatever
    year the page shows, the year displayed with an entry lies in the sixty
    years ending at the page's year and sits at the entry's position of the
    cycle; exactly the entry whose index is (page year - 4) mod 60 is
    highlighted; and when the page's year is 63 or later, the displayed year
    carries the entry's name as its year label. *)
Theorem jiaziYear_picks_label_year (generatedIn currentYear : Z) (jiazi : JiaziEntry) :
  jiazi ∈ generate60JiaZi generatedIn →
  (currentYear - 60 < jiaziYear jiazi currentYear ≤ currentYear)%Z
  ∧ ((jiaziYear jiazi currentYear - 4) `mod` 60 = year jiazi)%Z
  ∧ (isSelected jiazi currentYear = true ↔ year jiazi = ((currentYear - 4) `mod` 60)%Z)
  ∧ ((63 ≤ currentYear)%Z → getGanZhiYear (jiaziYear jiazi currentYear) = name jiazi).
Proof.
  intros (i & Hi & ->)%generate60JiaZi_elem.
  destruct (jiazi_entry_startYear generatedIn i Hi) as [_ Hpos].
  rewrite jiazi_entry_name, jiazi_entry_year. unfold isSelected, jiaziYear.
  destruct (jiaziYear_window (startYear (jiazi_entry generatedIn i)) currentYear)
    as [Hwin Hsame].
  rewrite Hpos in Hsame.
  revert Hwin Hsame. generalize (startYear (jiazi_entry generatedIn i)).
  intros sy Hwin Hsame.
  split; [done|]. split; [done|]. split.
  - rewrite Z.eqb_eq. split.
    + intros Heq. by rewrite Heq in Hsame.
    + intros Hidx. rewrite Hidx in Hsame. revert Hsame Hwin.
      generalize (sy + (currentYear - sy) / 60 * 60)%Z. intros jy Hsame Hwin.
      revert Hsame. Z.to_euclidean_division_equations. lia.
  - intros Hcy. rewrite getGanZhiYear_offset by lia. by rewrite Hsame.
Qed.

Lemma jiaziYear_picks_label_year_renyin :
  mkJiazi (JSString "壬寅") 38 2022 ∈ generate60JiaZi 2026
  ∧ (1900 - 60 < jiaziYear (mkJiazi (JSString "壬寅") 38 2022) 1900 ≤ 1900)%Z
  ∧ ((jiaziYear (mkJiazi (JSString "壬寅") 38 2022) 1900 - 4) `mod` 60
     = year (mkJiazi (JSString "壬寅") 38 2022))%Z
  ∧ (isSelected (mkJiazi (JSString "壬寅") 38 2022) 1900 = true
     ↔ year (mkJiazi (JSString "壬寅") 38 2022) = ((1900 - 4) `mod` 60)%Z)
  ∧ ((63 ≤ 1900)%Z → getGanZhiYear (jiaziYear (mkJiazi (JSString "壬寅") 38 2022) 1900)
                      = name (mkJiazi (JSString "壬寅") 38 2022)).
Proof.
  assert (mkJiazi (JSString "壬寅") 38 2022 ∈ generate60JiaZi 2026) as Hin.
  { apply generate60JiaZi_elem. exists 38%Z. split; [lia|reflexivity]. }
  split; [exact Hin|exact (jiaziYear_picks_label_year 2026 1900 _ Hin)].
Defined.

Example jiaziYear_renyin_in_1900 :
  jiaziYear (mkJiazi (JSString "壬寅") 38 2022) 1900 = 1842%Z.
Proof. reflexivity. Qed.

(** ** Solar terms *)

(** X7: for a date at or after [new Date(year, 0, 0)] of its own year, the
    index is within 0 .. 23 however large the day count, and
    [getCurrentSolarTerm] answers the term the table holds at the index of
    [getCurrentSolarTermIndex], never [undefined]. *)
Theorem getCurrentSolarTerm_defined (Date_y_0_0 : Z → Z) (date : Date) :
  (Date_y_0_0 (getFullYear date) ≤ getTime date)%Z →
  (0 ≤ getCurrentSolarTermIndex Date_y_0_0 date ≤ 23)%Z
  ∧ ∃ term, SOLAR_TERMS !! Z.to_nat (getCurrentSolarTermIndex Date_y_0_0 date) = Some term
          ∧ getCurrentSolarTerm Date_y_0_0 date = JSString term.
Proof.
  intros Hd.
  assert (0 ≤ dayOfYear Date_y_0_0 date)%Z as Hdoy.
  { unfold dayOfYear. apply Z.div_pos; [lia|]. unfold msPerDay. lia. }
  assert (0 ≤ getCurrentSolarTermIndex Date_y_0_0 date ≤ 23)%Z as Hidx.
  { unfold getCurrentSolarTermIndex. revert Hdoy.
    generalize (dayOfYear Date_y_0_0 date). intros doy Hdoy.
    Z.to_euclidean_division_equations. lia. }
  split; [done|].
  destruct (js_index_in_range SOLAR_TERMS (getCurrentSolarTermIndex Date_y_0_0 date))
    as (term & Hterm & Hjs); [simpl; lia|].
  exists term. split; [done|]. exact Hjs.
Qed.

Lemma getCurrentSolarTerm_defined_2024_06_21 :
  (Date_y_0_0_UTC (getFullYear (mkDate 2024 (Date_parse_ymd 2024 6 21)))
   ≤ getTime (mkDate 2024 (Date_parse_ymd 2024 6 21)))%Z
  ∧ (0 ≤ getCurrentSolarTermIndex Date_y_0_0_UTC (mkDate 2024 (Date_parse_ymd 2024 6 21))
     ≤ 23)%Z
  ∧ ∃ term,
      SOLAR_TERMS !! Z.to_nat (getCurrentSolarTermIndex Date_y_0_0_UTC
                                 (mkDate 2024 (Date_parse_ymd 2024 6 21))) = Some term
      ∧ getCurrentSolarTerm Date_y_0_0_UTC (mkDate 2024 (Date_parse_ymd 2024 6 21))
        = JSString term.
Proof.
  split; [vm_compute; discriminate|].
  apply (getCurrentSolarTerm_defined Date_y_0_0_UTC (mkDate 2024 (Date_parse_ymd 2024 6 21))).
  vm_compute. discriminate.
Defined.

Lemma length_filter_eqb (f : Z → Z) (k : Z) (l : list Z) :
  length (filter (λ d, f d = k) l) = length (List.filter (λ d, (f d =? k)%Z) l).
Proof.
  induction l as [|d l IH]; [done|].
  rewrite filter_cons. cbn [List.filter].
  destruct (decide (f d = k)) as [Heq|Hne].
  - rewrite (proj2 (Z.eqb_eq _ _) Heq). cbn [length]. by rewrite IH.
  - by rewrite (proj2 (Z.eqb_neq _ _) Hne).
Qed.

(** The number of days among 1 .. [N] whose index is [k]. *)
Lemma term_days_spans (k : Z) :
  (0 ≤ k ≤ 23)%Z →
  let n5 := length (filter (λ d, ((d * 24 / 365) `rem` 24)%Z = k) (seqZ 1 365)) in
  let n6 := length (filter (λ d, ((d * 24 / 365) `rem` 24)%Z = k) (seqZ 1 366)) in
  (k = 0%Z → n5 = 16%nat ∧ n6 = 17%nat)
  ∧ (k ≠ 0%Z → (n5 = 15%nat ∨ n5 = 16%nat) ∧ (n6 = 15%nat ∨ n6 = 16%nat)).
Proof.
  intros Hk. cbn zeta.
  rewrite !(length_filter_eqb (λ d, ((d * 24 / 365) `rem` 24)%Z)).
  set (count := λ N k : Z,
    length (List.filter (λ d, (((d * 24 / 365) `rem` 24) =? k)%Z) (seqZ 1 N))).
  change (length _) with (count 365%Z k) at 1 3 4.
  change (length _) with (count 366%Z k).
  assert (forallb (λ k, if (k =? 0)%Z
                        then Nat.eqb (count 365%Z k) 16 && Nat.eqb (count 366%Z k) 17
                        else (Nat.eqb (count 365%Z k) 15 || Nat.eqb (count 365%Z k) 16)
                             && (Nat.eqb (count 366%Z k) 15 || Nat.eqb (count 366%Z k) 16))
                  (seqZ 0 24) = true) as Hall.
  { vm_compute. reflexivity. }
  rewrite forallb_forall in Hall. specialize (Hall k).
  rewrite <- list_elem_of_In, elem_of_seqZ in Hall. specialize (Hall ltac:(lia)).
  clearbody count.
  destruct (Z.eqb_spec k 0) as [->|Hne].
  - apply andb_prop in Hall as [H5%Nat.eqb_eq H6%Nat.eqb_eq]. split; [done|tauto].
  - apply andb_prop in Hall as [H5%orb_prop H6%orb_prop].
    rewrite !Nat.eqb_eq in H5, H6. split; [tauto|done].
Qed.

(** X8: on a host whose local time is UTC, through the days January 1 ..
    December 31 of a calendar year outside 0 .. 99, at a fixed time of day,
    the term of index 0 is current on 16 days of a common year and 17 of a
    leap year (the first fifteen days and the last one or two), and each
    other term is current on 15 or 16 days; so every term occurs. *)
Theorem solar_term_spans (y s k : Z) :
  (y < 0 ∨ 99 < y)%Z → (0 ≤ s < msPerDay)%Z → (0 ≤ k ≤ 23)%Z →
  let n := length (filter
                     (λ d, getCurrentSolarTermIndex Date_y_0_0_UTC (dateInYear y d s) = k)
                     (seqZ 1 (daysInYear y))) in
  (k = 0%Z → n = (if isLeapYear y then 17 else 16)%nat)
  ∧ (k ≠ 0%Z → n = 15%nat ∨ n = 16%nat).
Proof.
  intros Hy Hs Hk n.
  assert (n = length (filter (λ d, ((d * 24 / 365) `rem` 24)%Z = k)
                             (seqZ 1 (daysInYear y)))) as Hn.
  { unfold n. f_equal. apply list_filter_iff. intros d.
    by rewrite solar_term_index_of_day. }
  clearbody n. subst n.
  destruct (term_days_spans k Hk) as [H0 Hpos]. cbn zeta in H0, Hpos.
  unfold daysInYear. destruct (isLeapYear y); split; intros Hk0.
  - by destruct (H0 Hk0).
  - by destruct (Hpos Hk0).
  - by destruct (H0 Hk0).
  - by destruct (Hpos Hk0).
Qed.

Lemma solar_term_spans_2024 :
  (2024 < 0 ∨ 99 < 2024)%Z ∧ (0 ≤ 0 < msPerDay)%Z ∧ (0 ≤ 9 ≤ 23)%Z
  ∧ let n := length (filter
                     (λ d, getCurrentSolarTermIndex Date_y_0_0_UTC (dateInYear 2024 d 0)
                           = 9%Z)
                     (seqZ 1 (daysInYear 2024))) in
    (9%Z = 0%Z → n = (if isLeapYear 2024 then 17 else 16)%nat)
    ∧ (9%Z ≠ 0%Z → n = 15%nat ∨ n = 16%nat).
Proof.
  split; [lia|]. split; [unfold msPerDay; lia|]. split; [lia|].
  apply (solar_term_spans 2024 0 9); [|unfold msPerDay|]; lia.
Defined.

(** * Further properties of the camera controller *)

(** ** The easing curve *)

Section EasingCurve.
Local Open Scope Q_scope.

Lemma Qcube_mono (a b : Q) : a <= b → a * a * a <= b * b * b.
Proof.
  intros H.
  assert (0 <= (b - a) * ((b + a * (1 # 2)) * (b + a * (1 # 2)) + (3 # 4) * (a * a)))
    as Hp.
  { apply Qmult_le_0_compat; [lra|]. nra. }
  lra.
Qed.

Lemma easeInOutCubic_low (t : Q) : t < 1 # 2 → easeInOutCubic t == 4 * t * t * t.
Proof.
  intros Ht. unfold easeInOutCubic.
  destruct (Qlt_le_dec t (1 # 2)) as [_|Hge]; [reflexivity|lra].
Qed.

Lemma easeInOutCubic_high (t : Q) :
  1 # 2 <= t →
  easeInOutCubic t == 1 - (2 - 2 * t) * (2 - 2 * t) * (2 - 2 * t) * (1 # 2).
Proof.
  intros Ht. unfold easeInOutCubic.
  destruct (Qlt_le_dec t (1 # 2)) as [Hlt|_]; [lra|].
  simpl. field.
Qed.

Lemma easeInOutCubic_mono (t1 t2 : Q) :
  t1 <= t2 → easeInOutCubic t1 <= easeInOutCubic t2.
Proof.
  intros H.
  destruct (Qlt_le_dec t1 (1 # 2)) as [H1|H1]; destruct (Qlt_le_dec t2 (1 # 2)) as [H2|H2].
  - rewrite !easeInOutCubic_low by done. pose proof (Qcube_mono t1 t2 H). lra.
  - rewrite easeInOutCubic_low, easeInOutCubic_high by done.
    pose proof (Qcube_mono t1 (1 # 2) ltac:(lra)) as Ha.
    pose proof (Qcube_mono (2 - 2 * t2) 1 ltac:(lra)) as Hb.
    lra.
  - lra.
  - rewrite !easeInOutCubic_high by done.
    pose proof (Qcube_mono (2 - 2 * t2) (2 - 2 * t1) ltac:(lra)). lra.
Qed.

(** X9: the easing curve fixes 0, 1/2 and 1, never decreases, maps the unit
    interval into itself, and is symmetric about the centre:
    ease (1 - t) = 1 - ease t (numbers as rationals). *)
Theorem easeInOutCubic_curve (t t' : Q) :
  easeInOutCubic 0 == 0 ∧ easeInOutCubic (1 # 2) == 1 # 2 ∧ easeInOutCubic 1 == 1
  ∧ (t <= t' → easeInOutCubic t <= easeInOutCubic t')
  ∧ (0 <= t <= 1 → 0 <= easeInOutCubic t <= 1)
  ∧ easeInOutCubic (1 - t) == 1 - easeInOutCubic t.
Proof.
  assert (easeInOutCubic 0 == 0) as H0 by reflexivity.
  assert (easeInOutCubic 1 == 1) as H1 by reflexivity.
  split; [done|]. split; [reflexivity|]. split; [done|].
  split; [apply easeInOutCubic_mono|]. split.
  - intros [Hlo Hhi].
    pose proof (easeInOutCubic_mono 0 t Hlo) as Ha.
    pose proof (easeInOutCubic_mono t 1 Hhi) as Hb.
    rewrite H0 in Ha. rewrite H1 in Hb. by split.
  - destruct (Qlt_le_dec t (1 # 2)) as [Hlt|Hge].
    + rewrite (easeInOutCubic_high (1 - t)) by lra.
      rewrite (easeInOutCubic_low t) by done. field.
    + destruct (Qle_lt_or_eq _ _ Hge) as [Hgt|Heq].
      * rewrite (easeInOutCubic_low (1 - t)) by lra.
        rewrite (easeInOutCubic_high t) by done. field.
      * rewrite (easeInOutCubic_high (1 - t)) by lra.
        rewrite (easeInOutCubic_high t) by done.
        assert (t == 1 # 2) as Ht by (symmetry; exact Heq).
        rewrite Ht. reflexivity.
Qed.

Lemma easeInOutCubic_curve_quarter :
  (1 # 4) <= (3 # 4)
  ∧ easeInOutCubic (1 # 4) <= easeInOutCubic (3 # 4)
  ∧ (0 <= 1 # 4 <= 1 → 0 <= easeInOutCubic (1 # 4) <= 1)
  ∧ easeInOutCubic (1 - (1 # 4)) == 1 - easeInOutCubic (1 # 4).
Proof.
  assert ((1 # 4) <= (3 # 4)) as Hle by (vm_compute; discriminate).
  destruct (easeInOutCubic_curve (1 # 4) (3 # 4)) as (_ & _ & _ & Hm & Hr & Hs).
  split; [exact Hle|]. split; [exact (Hm Hle)|]. split; [exact Hr|exact Hs].
Defined.
End EasingCurve.

(** ** Interpolation along a transition *)

Section CameraRuns.
Local Open Scope Q_scope.

Lemma easeInOutCubic_proper (t t' : Q) : t == t' → easeInOutCubic t == easeInOutCubic t'.
Proof.
  intros Heq. apply Qle_antisym; apply easeInOutCubic_mono; rewrite Heq; apply Qle_refl.
Qed.

Lemma progress_at_range (a : Animation) (now : Q) :
  startTime a <= now → 0 <= progress_at a now <= 1.
Proof.
  intros Hnow. unfold progress_at, duration. split; [|apply Q.le_min_r].
  apply Q.min_glb; [|lra].
  apply Qle_shift_div_l; lra.
Qed.

Lemma progress_at_start (a : Animation) (now : Q) :
  now == startTime a → progress_at a now == 0.
Proof.
  intros Hnow. unfold progress_at, duration.
  assert ((now - startTime a) / 1200 == 0) as Hz by (rewrite Hnow; field).
  rewrite Hz. apply Q.min_l. lra.
Qed.

Lemma progress_at_done (a : Animation) (now : Q) :
  startTime a + 1200 <= now → progress_at a now == 1.
Proof.
  intros Hnow. unfold progress_at, duration.
  apply Q.min_r. apply Qle_shift_div_l; lra.
Qed.

Lemma lerp_coordinate (x1 x2 α : Q) :
  (α == 0 → x1 + (x2 - x1) * α == x1)
  ∧ (α == 1 → x1 + (x2 - x1) * α == x2)
  ∧ (0 <= α <= 1 → Qbetween (x1 + (x2 - x1) * α) x1 x2).
Proof.
  split; [intros ->; ring|]. split; [intros ->; ring|].
  intros [H0 H1]. unfold Qbetween.
  destruct (Qlt_le_dec x2 x1) as [Hlt|Hle].
  - rewrite Q.min_r, Q.max_l by lra.
    assert (0 <= (x1 - x2) * α) by (apply Qmult_le_0_compat; lra).
    assert (0 <= (x1 - x2) * (1 - α)) by (apply Qmult_le_0_compat; lra).
    split; lra.
  - rewrite Q.min_l, Q.max_r by lra.
    assert (0 <= (x2 - x1) * α) by (apply Qmult_le_0_compat; lra).
    assert (0 <= (x2 - x1) * (1 - α)) by (apply Qmult_le_0_compat; lra).
    split; lra.
Qed.

Lemma lerpVectors_spec (v1 v2 : Vector3) (α : Q) :
  (α == 0 → vec_eqv (lerpVectors v1 v2 α) v1)
  ∧ (α == 1 → vec_eqv (lerpVectors v1 v2 α) v2)
  ∧ (0 <= α <= 1 → vec_between (lerpVectors v1 v2 α) v1 v2).
Proof.
  unfold vec_eqv, vec_between, lerpVectors. cbn [vx vy vz].
  destruct (lerp_coordinate (vx v1) (vx v2) α) as (Hx0 & Hx1 & Hxb).
  destruct (lerp_coordinate (vy v1) (vy v2) α) as (Hy0 & Hy1 & Hyb).
  destruct (lerp_coordinate (vz v1) (vz v2) α) as (Hz0 & Hz1 & Hzb).
  split_and!; intros H; split_and!; auto.
Qed.

Lemma animate_camera (a : Animation) (now : Q) (w : Scene) :
  camera_position (animate a now w)
  = lerpVectors (startPosition a) (endPosition a) (easeInOutCubic (progress_at a now))
  ∧ target <$> controlsRef (animate a now w)
    = (λ _, lerpVectors (startTarget a) (endTarget a)
              (easeInOutCubic (progress_at a now))) <$> controlsRef w.
Proof.
  unfold animate. rewrite progress_at_le_1.
  cbn [requestAnimationFrame camera_position controlsRef].
  split; [done|]. by destruct (controlsRef w).
Qed.

(** X10: a call of [animate] at the very start of a transition leaves the
    camera at its start position; once 1200 ms have passed it puts the camera
    exactly at the end position and aims the controls at the target; and at
    any time from the start on, every coordinate of the camera lies between
    its start and end values (numbers as rationals). *)
Theorem animate_interpolates (a : Animation) (now : Q) (w : Scene) :
  (now == startTime a → vec_eqv (camera_position (animate a now w)) (startPosition a))
  ∧ (startTime a + 1200 <= now →
       vec_eqv (camera_position (animate a now w)) (endPosition a)
       ∧ ∀ c, controlsRef (animate a now w) = Some c → vec_eqv (target c) (endTarget a))
  ∧ (startTime a <= now →
       vec_between (camera_position (animate a now w)) (startPosition a) (endPosition a)).
Proof.
  destruct (animate_camera a now w) as [Hcam Htgt]. rewrite Hcam.
  split_and!.
  - intros Hnow. apply lerpVectors_spec.
    rewrite (easeInOutCubic_proper _ 0) by (by apply progress_at_start). reflexivity.
  - intros Hnow.
    assert (easeInOutCubic (progress_at a now) == 1) as Hone.
    { rewrite (easeInOutCubic_proper _ 1) by (by apply progress_at_done). reflexivity. }
    split; [by apply lerpVectors_spec|].
    intros c Hc. rewrite Hc in Htgt. destruct (controlsRef w); [|done].
    injection Htgt as ->. by apply lerpVectors_spec.
  - intros Hnow. apply lerpVectors_spec.
    pose proof (progress_at_range a now Hnow) as [Hlo Hhi].
    pose proof (easeInOutCubic_mono _ _ Hlo) as Ha.
    pose proof (easeInOutCubic_mono _ _ Hhi) as Hb.
    change (easeInOutCubic 0) with 0 in Ha.
    assert (easeInOutCubic 1 == 1) as H1 by reflexivity.
    rewrite H1 in Hb. by split.
Qed.
End CameraRuns.


(** ** Runs of the controller *)

Lemma settled_state (w : Scene) :
  settled w → controller_state w = Idle ∧ frameQueue w = [].
Proof.
  intros ((c & Hc & Hen) & Hflag & Href & Hq). split; [|done].
  unfold controller_state. by rewrite Hc, Hflag, Href; cbn; rewrite Hen.
Qed.

Lemma one_loop_state (w : Scene) :
  one_loop w → controller_state w = Transitioning ∧ length (frameQueue w) = 1%nat.
Proof.
  intros [(Hflag & Hen & _ & _) (h & a & Href & Hq)]. split; [|by rewrite Hq].
  unfold controller_state. rewrite Hen. reflexivity.
Qed.

Lemma frame_settled (now : Q) (w : Scene) : settled w → settled (frame now w).
Proof.
  intros (Hc & Hflag & Href & Hq). unfold frame. rewrite Hq. cbn [fold_left].
  by split_and!.
Qed.

Lemma frame_one_loop (now : Q) (w : Scene) : one_loop w → one_loop (frame now w).
Proof.
  intros [Hfl (h & a & Href & Hq)]. split; [by apply frame_in_flight|].
  unfold frame. rewrite Hq. cbn [fold_left snd].
  destruct (animate_reschedules a now
    (mkScene (camera_position w) (controlsRef w) (animationRef w) (isAnimating w)
             [] (nextHandle w))) as (_ & _ & Href' & Hq').
  cbn [nextHandle frameQueue] in Href', Hq'.
  exists (nextHandle w), a. by rewrite Href', Hq'.
Qed.

Lemma focus_cleanup_settles (w : Scene) :
  settled w ∨ one_loop w →
  settled (focus_cleanup w) ∧ camera_position (focus_cleanup w) = camera_position w.
Proof.
  intros [((c & Hc & Hen) & Hflag & Href & Hq) | [(Hflag & Hen & _ & _) (h & a & Href & Hq)]];
    unfold focus_cleanup; rewrite Href.
  - cbn [camera_position controlsRef animationRef frameQueue].
    rewrite Hc. split; [|done]. split_and!; try done.
    by exists (set_enabled true c).
  - cbn [cancelAnimationFrame camera_position controlsRef animationRef frameQueue].
    rewrite Hq. cbn [List.filter fst]. rewrite Nat.eqb_refl. cbn [negb].
    destruct (controlsRef w) as [c|]; [|done].
    split; [|done]. split_and!; try done.
    by exists (set_enabled true c).
Qed.

Lemma focus_effect_from_rest (tgt : Vector3) (now : Q) (w : Scene) :
  settled w →
  one_loop (focus_effect (Some tgt) now w)
  ∧ camera_position (focus_effect (Some tgt) now w) = camera_position w
  ∧ ∃ h c, controlsRef w = Some c
      ∧ animationRef (focus_effect (Some tgt) now w) = Some h
      ∧ frameQueue (focus_effect (Some tgt) now w)
        = [(h, mkAnimation (camera_position w) (target c)
                 (vec_add tgt (mkVec 25 (25 * (6 # 10)) 25)) tgt now)].
Proof.
  intros ((c & Hc & Hen) & Hflag & Href & Hq).
  assert (in_flight (focus_effect (Some tgt) now w)) as Hfl
    by (by eapply focus_effect_starts).
  unfold focus_effect in *. rewrite Hc, Hflag in *.
  cbn [animationRef] in *. rewrite Href in *.
  cbn [requestAnimationFrame isAnimating controlsRef animationRef frameQueue
       camera_position nextHandle] in *.
  rewrite Hq in *. cbn [app] in *.
  split_and!; [split; [done|]|done|]; by eexists _, _.
Qed.

Lemma controller_step_invariant (w : Scene) (ev : ControllerEvent) :
  settled w ∨ one_loop w → settled (controller_step w ev) ∨ one_loop (controller_step w ev).
Proof.
  intros Hw. destruct ev as [[tgt|] now|now]; cbn [controller_step].
  - right. apply focus_effect_from_rest. by apply focus_cleanup_settles.
  - left. destruct (focus_cleanup_settles w Hw) as [Hs _].
    unfold focus_effect. exact Hs.
  - destruct Hw as [Hs|Hl]; [left; by apply frame_settled|right; by apply frame_one_loop].
Qed.

Lemma controller_run_invariant (evs : list ControllerEvent) (w : Scene) :
  settled w ∨ one_loop w → settled (controller_run evs w) ∨ one_loop (controller_run evs w).
Proof.
  unfold controller_run. revert w.
  induction evs as [|ev evs IH]; intros w Hw; cbn [fold_left]; [done|].
  by apply IH, controller_step_invariant.
Qed.

(** X11: from a controller at rest, after any sequence of target changes and
    rendered frames the host's queue holds at most one animation callback, and
    it holds none exactly when the controller is [Idle]: two animation loops
    never run side by side. *)
Theorem controller_single_loop (evs : list ControllerEvent) (w : Scene) :
  settled w →
  (length (frameQueue (controller_run evs w)) ≤ 1)%nat
  ∧ (frameQueue (controller_run evs w) = [] ↔ controller_state (controller_run evs w) = Idle).
Proof.
  intros Hw.
  destruct (controller_run_invariant evs w (or_introl Hw)) as [Hs|Hl].
  - destruct (settled_state _ Hs) as [Hst Hq]. rewrite Hq, Hst.
    split; [cbn; lia|done].
  - destruct (one_loop_state _ Hl) as [Hst Hlen]. rewrite Hst, Hlen.
    split; [lia|]. split; [|done].
    intros Hq. by rewrite Hq in Hlen.
Qed.

Lemma mounted_settled : settled mounted.
Proof. split_and!; try done. by eexists. Qed.

Lemma controller_single_loop_mounted :
  settled mounted
  ∧ (length (frameQueue (controller_run
       [TargetChanged (Some (mkVec 24 0 0)) 0; FrameRendered 16;
        TargetChanged (Some (mkVec 12 0 0)) 500; FrameRendered 516]%Q mounted)) ≤ 1)%nat
  ∧ (frameQueue (controller_run
       [TargetChanged (Some (mkVec 24 0 0)) 0; FrameRendered 16;
        TargetChanged (Some (mkVec 12 0 0)) 500; FrameRendered 516]%Q mounted) = []
     ↔ controller_state (controller_run
       [TargetChanged (Some (mkVec 24 0 0)) 0; FrameRendered 16;
        TargetChanged (Some (mkVec 12 0 0)) 500; FrameRendered 516]%Q mounted) = Idle).
Proof.
  split; [exact mounted_settled|].
  exact (controller_single_loop _ mounted mounted_settled).
Defined.



(** X13: a new target arriving at any moment, in flight or at rest, starts a
    transition from where the camera and the controls' aim are at that
    moment to the new target and the point 25, 15, 25 beyond it; its callback
    is the only one queued and the camera does not jump. *)
Theorem target_change_restarts (evs : list ControllerEvent) (w : Scene)
    (tgt : Vector3) (now : Q) :
  settled w →
  let before := controller_run evs w in
  let after := controller_step before (TargetChanged (Some tgt) now) in
  controller_state after = Transitioning
  ∧ camera_position after = camera_position before
  ∧ ∃ h c, controlsRef before = Some c
      ∧ animationRef after = Some h
      ∧ frameQueue after
        = [(h, mkAnimation (camera_position before) (target c)
                 (vec_add tgt (mkVec 25 (25 * (6 # 10)) 25)) tgt now)].
Proof.
  intros Hw before after.
  destruct (focus_cleanup_settles before (controller_run_invariant evs w (or_introl Hw)))
    as [Hs Hcam].
  destruct (focus_effect_from_rest tgt now (focus_cleanup before) Hs)
    as (Hloop & Hcam' & h & c & Hc & Href & Hq).
  fold (controller_step before (TargetChanged (Some tgt) now)) in Hloop, Hcam', Href, Hq.
  fold after in Hloop, Hcam', Href, Hq.
  split; [by apply one_loop_state|]. split; [congruence|].
  assert (∃ c0, controlsRef before = Some c0 ∧ target c0 = target c) as (c0 & Hc0 & Ht).
  { revert Hc. unfold focus_cleanup.
    destruct (animationRef before);
      cbn [cancelAnimationFrame controlsRef]; destruct (controlsRef before) as [c0|];
      cbn; intros [= <-]; by exists c0. }
  exists h, c0. rewrite Ht, <- Hcam. by split_and!.
Qed.

Lemma target_change_restarts_mounted :
  settled mounted
  ∧ controller_state
      (controller_step (controller_run [TargetChanged (Some (mkVec 24 0 0)) 0;
                                        FrameRendered 600]%Q mounted)
         (TargetChanged (Some (mkVec 12 0 0)) 600%Q)) = Transitioning.
Proof.
  split; [exact mounted_settled|].
  exact (proj1 (target_change_restarts
                  [TargetChanged (Some (mkVec 24 0 0)) 0; FrameRendered 600]%Q
                  mounted (mkVec 12 0 0) 600%Q mounted_settled)).
Defined.


(** * Further properties of the orbital model and the scene *)

Section PhaseAdvance.
Variable Body : list (string * string).

(** X14: for a body listed in [orbitalPeriods] with period [P] days, the
    phase angle is 0 at the reference epoch and grows by 2 PI times the
    elapsed days over [P] between any two instants, so it increases strictly
    with time (and is negative before the epoch). *)
Theorem angle_advance (body key : string) (P : R) (t t' : Date) :
  bodyKey Body body = Some key → orbitalPeriods !! key = Some P →
  angle Body J2000 body = 0%R
  ∧ (angle Body t' body - angle Body t body
     = IZR (getTime t' - getTime t) / IZR msPerDay / P * (2 * PI))%R
  ∧ ((getTime t < getTime t')%Z → (angle Body t body < angle Body t' body)%R).
Proof.
  intros Hkey HP.
  destruct (orbitalPeriods_inv key P HP) as [_ Hpos].
  assert (∀ d, angle Body d body
               = (IZR (getTime d - Date_parse_ymd 2000 1 1) / IZR msPerDay / P * (2 * PI))%R)
    as Hang.
  { intros d. unfold angle, daysSinceEpoch.
    rewrite (period_of_listed_body Body body key P Hkey HP).
    unfold msPerDay. rewrite !mult_IZR. field. lra. }
  assert (0 < IZR msPerDay)%R as HD by (unfold msPerDay; rewrite !mult_IZR; lra).
  split_and!.
  - rewrite Hang. unfold J2000. cbn [getTime]. rewrite Z.sub_diag.
    unfold Rdiv. lra.
  - rewrite !Hang, !minus_IZR. field. split; lra.
  - intros Hlt. rewrite !Hang, !minus_IZR.
    apply IZR_lt in Hlt. pose proof PI_RGT_0 as Hpi.
    apply Rmult_lt_compat_r; [lra|].
    apply Rmult_lt_compat_r; [by apply Rinv_0_lt_compat|].
    apply Rmult_lt_compat_r; [by apply Rinv_0_lt_compat|]. lra.
Qed.
End PhaseAdvance.

Lemma angle_advance_Earth :
  bodyKey CelestialBodyId "Earth" = Some "Earth"
  ∧ orbitalPeriods !! "Earth" = Some 365.256%R
  ∧ angle CelestialBodyId J2000 "Earth" = 0%R.
Proof.
  split; [reflexivity|]. split; [reflexivity|].
  exact (proj1 (angle_advance CelestialBodyId "Earth" "Earth" 365.256 J2000 J2000
                  eq_refl eq_refl)).
Defined.


(** ** Orbit lines *)

(** X15: the line [Orbit] draws has 129 vertices, it starts and ends at the
    point [radius, 0, 0], and for a radius that is not negative every vertex
    lies in the orbital plane at distance [radius] from the origin (numbers as
    real numbers). *)
Theorem Orbit_points_closed_circle (radius : R) :
  length (Orbit_points radius) = 129%nat
  ∧ Orbit_points radius !! 0%nat = Some (radius, 0, 0)%R
  ∧ Orbit_points radius !! 128%nat = Some (radius, 0, 0)%R
  ∧ ((0 <= radius)%R →
     ∀ p, p ∈ Orbit_points radius → p.1.2 = 0%R ∧ norm3 p = radius).
Proof.
  unfold Orbit_points. split_and!.
  - by rewrite length_fmap, length_seq.
  - cbn [fmap list_fmap seq lookup list_lookup]. cbn [INR]. f_equal.
    replace (0 / 128 * PI * 2)%R with 0%R by (unfold Rdiv; lra).
    rewrite cos_0, sin_0. f_equal; [f_equal|]; lra.
  - rewrite list_lookup_fmap, lookup_seq_lt by lia. cbn [fmap option_fmap option_map].
    f_equal.
    replace (INR (0 + 128) / 128 * PI * 2)%R with (2 * PI)%R.
    + rewrite cos_2PI, sin_2PI. f_equal; [f_equal|]; lra.
    + change (0 + 128)%nat with 128%nat. rewrite (INR_IZR_INZ 128). simpl. field.
  - intros Hr p (i & -> & _)%list_elem_of_fmap. cbn zeta. split; [done|].
    replace (cos (INR i / 128 * PI * 2) * radius, 0, sin (INR i / 128 * PI * 2) * radius)%R
      with (radius * cos (INR i / 128 * PI * 2), 0, radius * sin (INR i / 128 * PI * 2))%R
      by (f_equal; [f_equal|]; lra).
    by apply norm3_circle.
Qed.

Lemma Orbit_points_closed_circle_Earth :
  (0 <= 24)%R
  ∧ length (Orbit_points 24) = 129%nat
  ∧ Orbit_points 24 !! 0%nat = Some (24, 0, 0)%R
  ∧ Orbit_points 24 !! 128%nat = Some (24, 0, 0)%R
  ∧ ∀ p, p ∈ Orbit_points 24 → p.1.2 = 0%R ∧ norm3 p = 24%R.
Proof.
  destruct (Orbit_points_closed_circle 24) as (H1 & H2 & H3 & H4).
  assert (0 <= 24)%R as Hr by lra.
  split; [exact Hr|]. split; [exact H1|]. split; [exact H2|]. split; [exact H3|].
  exact (H4 Hr).
Defined.

(** ** The Moon *)

Lemma norm3_sum_of_circles (a b α β : R) :
  (0 <= b <= a)%R →
  (a - b <= norm3 (pos_add (a * cos α, 0, a * sin α) (b * cos β, 0, b * sin β))
   <= a + b)%R.
Proof.
  intros Hab. unfold norm3, pos_add.
  set (s := ((a * cos α + b * cos β) * (a * cos α + b * cos β) + (0 + 0) * (0 + 0)
             + (a * sin α + b * sin β) * (a * sin α + b * sin β))%R).
  assert (s = a * a + b * b + 2 * a * b * cos (α - β))%R as Hs.
  { unfold s. rewrite cos_minus.
    pose proof (sin2_cos2 α) as Hα. pose proof (sin2_cos2 β) as Hβ.
    unfold Rsqr in Hα, Hβ. nra. }
  pose proof (COS_bound (α - β)) as [Hlo Hhi].
  assert (0 <= a * b)%R as Hprod by nra.
  assert ((a - b) * (a - b) <= s <= (a + b) * (a + b))%R as [Hs1 Hs2] by (rewrite Hs; nra).
  split.
  - apply Rle_trans with (sqrt ((a - b) * (a - b))); [|by apply sqrt_le_1_alt].
    rewrite sqrt_square by lra. lra.
  - apply Rle_trans with (sqrt ((a + b) * (a + b))); [by apply sqrt_le_1_alt|].
    rewrite sqrt_square by lra. lra.
Qed.

(** X16: the position the Moon's click handler computes is always 2 units
    away from the Earth's position, and between 22 and 26 units away from the
    Sun at the origin (numbers as real numbers). *)
Theorem moonPos_near_Earth (Body : list (string * string))
    (Body_member : string → string) (time : Date) :
  norm3 (pos_sub (moonPos Body Body_member time)
           (calculatePosition Body time (Body_member "Earth") 24)) = 2%R
  ∧ (22 <= norm3 (moonPos Body Body_member time) <= 26)%R.
Proof.
  unfold moonPos, calculatePosition. cbn [PlanetData.distance PLANETS_earth].
  split.
  - unfold pos_sub, pos_add.
    match goal with
    | |- norm3 (?x, ?y, ?z) = _ =>
        replace (x, y, z) with (2 * cos (angle Body time (Body_member "Moon")), 0,
                                2 * sin (angle Body time (Body_member "Moon")))%R
          by (f_equal; [f_equal|]; lra)
    end.
    apply norm3_circle. lra.
  - pose proof (norm3_sum_of_circles 24 2 (angle Body time (Body_member "Earth"))
                  (angle Body time (Body_member "Moon")) ltac:(lra)) as [Hlo Hhi].
    split; lra.
Qed.


(** ** From a cycle name to the camera's target *)

Lemma five_planets_in_PLANETS (p : string) :
  p ∈ five_planets →
  p ≠ "earth"
  ∧ ∃ planet, PLANETS !! p = Some planet
      ∧ (0 < PlanetData.distance planet)%R
      ∧ ∃ P, orbitalPeriods !! PlanetData.body planet = Some P.
Proof.
  intros Hp. unfold five_planets in Hp.
  repeat (apply elem_of_cons in Hp as [->|Hp];
          [split; [discriminate|];
           eexists; split; [reflexivity|];
           split; [cbn; lra|eexists; reflexivity]|]).
  by apply elem_of_nil in Hp.
Qed.

(** X17: choosing any entry of the cycle table makes [handleJiaziSelect] set
    a target planet that [PLANETS] knows (never the Earth) and whose body has
    a period of its own; the scene's effect then sets the focus target to
    that planet's position, a point at the planet's orbit radius from the
    Sun. *)
Theorem jiazi_focus_on_orbit (generatedIn : Z) (e : JiaziEntry) :
  e ∈ generate60JiaZi generatedIn →
  ∃ nm p planet,
    name e = JSString nm
    ∧ (∀ Date_y_0_1 sy st, targetPlanet (handleJiaziSelect Date_y_0_1 sy nm st) = Some p)
    ∧ PLANETS !! p = Some planet
    ∧ p ≠ "earth"
    ∧ (∃ P, orbitalPeriods !! PlanetData.body planet = Some P)
    ∧ ∀ Body Body_member time targetPosition,
        targetPlanet_effect Body Body_member time (Some p) targetPosition
        = Some (calculatePosition Body time (Body_member (PlanetData.body planet))
                  (PlanetData.distance planet))
        ∧ norm3 (calculatePosition Body time (Body_member (PlanetData.body planet))
                   (PlanetData.distance planet))
          = PlanetData.distance planet.
Proof.
  intros (i & Hi & ->)%generate60JiaZi_elem.
  rewrite jiazi_entry_name.
  destruct (has_explicit_planet_inv _ (cycle_labels_have_planet i Hi))
    as (nm & p & -> & Hp & Hfive & Ht).
  destruct (five_planets_in_PLANETS p Hfive) as (Hne & planet & Hpl & Hdist & Hper).
  exists nm, p, planet.
  split; [reflexivity|]. split.
  { intros D sy st. unfold handleJiaziSelect, js_or.
    cbn [targetPlanet]. rewrite Hp, Ht, Ht. reflexivity. }
  split; [exact Hpl|]. split; [exact Hne|]. split; [exact Hper|].
  intros Body Body_member time tp. split.
  - unfold targetPlanet_effect. rewrite Ht, Hpl. reflexivity.
  - unfold calculatePosition. apply norm3_circle. lra.
Qed.

Lemma jiazi_focus_on_orbit_renyin :
  mkJiazi (JSString "壬寅") 38 2022 ∈ generate60JiaZi 2026
  ∧ ∃ nm p planet,
      name (mkJiazi (JSString "壬寅") 38 2022) = JSString nm
      ∧ (∀ Date_y_0_1 sy st, targetPlanet (handleJiaziSelect Date_y_0_1 sy nm st) = Some p)
      ∧ PLANETS !! p = Some planet
      ∧ p ≠ "earth"
      ∧ (∃ P, orbitalPeriods !! PlanetData.body planet = Some P)
      ∧ ∀ Body Body_member time targetPosition,
          targetPlanet_effect Body Body_member time (Some p) targetPosition
          = Some (calculatePosition Body time (Body_member (PlanetData.body planet))
                    (PlanetData.distance planet))
          ∧ norm3 (calculatePosition Body time (Body_member (PlanetData.body planet))
                     (PlanetData.distance planet))
            = PlanetData.distance planet.
Proof.
  assert (mkJiazi (JSString "壬寅") 38 2022 ∈ generate60JiaZi 2026) as Hin.
  { apply generate60JiaZi_elem. exists 38%Z. split; [lia|reflexivity]. }
  split; [exact Hin|exact (jiazi_focus_on_orbit 2026 _ Hin)].
Defined.

(** A target planet that [PLANETS] lacks, or none, leaves the focus target as
    it was. *)
Example targetPlanet_effect_unknown (Body : list (string * string))
    (Body_member : string → string) (time : Date) (tp : option Position3) :
  targetPlanet_effect Body Body_member time (Some "pluto") tp = tp
  ∧ targetPlanet_effect Body Body_member time None tp = tp.
Proof. split; reflexivity. Qed.


(** * Further properties: year labels, and the earlier scene *)

(** X18: from the year 4 on, the label [k] years later stands [k] positions
    further round the cycle, so two years carry the same label exactly when
    they are a multiple of sixty years apart. *)
Theorem getGanZhiYear_repeats_every_sixty (year k : Z) :
  (4 ≤ year)%Z → (0 ≤ k)%Z →
  getGanZhiYear (year + k) = label_of_offset (((year - 4) `mod` 60 + k) `mod` 60)
  ∧ (getGanZhiYear (year + k) = getGanZhiYear year ↔ (k `mod` 60 = 0)%Z).
Proof.
  intros Hy Hk.
  assert (getGanZhiYear (year + k)
          = label_of_offset (((year - 4) `mod` 60 + k) `mod` 60)) as Hlab.
  { rewrite getGanZhiYear_offset by lia. f_equal.
    replace (year + k - 4)%Z with (year - 4 + k)%Z by lia.
    by rewrite Zplus_mod_idemp_l. }
  split; [done|].
  rewrite Hlab, (getGanZhiYear_offset year) by done.
  pose proof (Z.mod_pos_bound (year - 4) 60 ltac:(lia)) as Ho.
  revert Ho. generalize ((year - 4) `mod` 60)%Z. intros o Ho. split.
  - intros Heq. apply label_of_offset_inj in Heq; [|by apply Z.mod_pos_bound|done].
    revert Heq. Z.to_euclidean_division_equations. lia.
  - intros Hk60. f_equal.
    rewrite Zplus_mod, Hk60, Z.add_0_r, Zmod_mod. by apply Z.mod_small.
Qed.

Lemma getGanZhiYear_repeats_every_sixty_1984 :
  (4 ≤ 1984)%Z ∧ (0 ≤ 40)%Z
  ∧ getGanZhiYear (1984 + 40) = label_of_offset (((1984 - 4) `mod` 60 + 40) `mod` 60)
  ∧ (getGanZhiYear (1984 + 40) = getGanZhiYear 1984 ↔ (40 `mod` 60 = 0)%Z).
Proof.
  split; [lia|]. split; [lia|].
  apply (getGanZhiYear_repeats_every_sixty 1984 40); lia.
Defined.

Lemma Part000_speed_is_1 (Body : list (string * string)) (body : string) :
  (∀ k v, (k, v) ∈ Body → Part000.speedFactors !! k = None) →
  Part000.speed Body body = 1%R.
Proof.
  intros Hcap. unfold Part000.speed, js_or_string.
  assert (Part000.speedFactors !! "earth" = Some 1.0%R) as Hearth by reflexivity.
  assert (1.0 = 1)%R as Hone by lra.
  destruct (bodyKey Body body) as [key|] eqn:Hkey; cbn [js_truthy].
  - destruct (String.eqb key "") eqn:Hempty; cbn [negb].
    + rewrite Hearth. destruct (Req_dec_T _ _); lra.
    + unfold bodyKey in Hkey.
      destruct (List.find _ Body) as [[k v]|] eqn:Hfind; [|done].
      injection Hkey as <-. apply find_some in Hfind as [Hin _].
      apply list_elem_of_In in Hin. rewrite (Hcap k v Hin). exact Hone.
  - rewrite Hearth. destruct (Req_dec_T _ _); lra.
Qed.

(** X19: in the earlier scene the speed table is keyed in lower case; when no
    member name of [Body] is one of its keys (the library's names are
    capitalised), every body gets the speed factor 1: all bodies share the
    angle of the day of the year, so two bodies drawn at the same radius
    coincide and each completes one turn per 365 days, Mercury like Saturn
    (numbers as real numbers). *)
Theorem Part000_bodies_move_in_lockstep (Body : list (string * string))
    (Date_y_0_0 : Z → Z) (time : Date) (body body' : string) (distance : R) :
  (∀ k v, (k, v) ∈ Body → Part000.speedFactors !! k = None) →
  Part000.speed Body body = 1%R
  ∧ Part000.calculatePosition Body Date_y_0_0 time body distance
    = (distance * cos (Part000.baseAngle Date_y_0_0 time), 0,
       distance * sin (Part000.baseAngle Date_y_0_0 time))%R
  ∧ Part000.calculatePosition Body Date_y_0_0 time body distance
    = Part000.calculatePosition Body Date_y_0_0 time body' distance.
Proof.
  intros Hcap.
  pose proof (Part000_speed_is_1 Body body Hcap) as Hs.
  pose proof (Part000_speed_is_1 Body body' Hcap) as Hs'.
  split; [done|].
  unfold Part000.calculatePosition. rewrite Hs, Hs', Rmult_1_r. by split.
Qed.

Lemma Part000_bodies_move_in_lockstep_Mercury_Saturn :
  (∀ k v, (k, v) ∈ CelestialBodyId → Part000.speedFactors !! k = None)
  ∧ Part000.speed CelestialBodyId "Mercury" = 1%R
  ∧ Part000.calculatePosition CelestialBodyId Date_y_0_0_UTC J2000 "Mercury" 12
    = Part000.calculatePosition CelestialBodyId Date_y_0_0_UTC J2000 "Saturn" 12.
Proof.
  assert (∀ k v, (k, v) ∈ CelestialBodyId → Part000.speedFactors !! k = None) as Hcap.
  { intros k v Hin. unfold CelestialBodyId in Hin.
    repeat (apply elem_of_cons in Hin as [[= -> ->]|Hin]; [reflexivity|]).
    by apply elem_of_nil in Hin. }
  destruct (Part000_bodies_move_in_lockstep CelestialBodyId Date_y_0_0_UTC J2000
              "Mercury" "Saturn" 12 Hcap) as (H1 & _ & H3).
  split; [exact Hcap|]. split; [exact H1|exact H3].
Defined.
